(** * sendMessage (app/static/js/main.js): a shallow embedding

    The script is one asynchronous function over three host interfaces: the
    page (document.getElementById, the value and innerText properties), the
    network (fetch, Response.json) and JSON (JSON.stringify).  The embedding
    keeps the function as it is written, in a small monad that threads the
    page and the record of fetch calls, and models each host interface as far
    as the function exercises it.

    JavaScript strings are sequences of 16-bit code units; they are lists of
    [N] here, with [wf_string] stating the 16-bit bound. *)

From Stdlib Require Import NArith Ascii String List Lia.
From stdpp Require Import gmap list.

Local Open Scope N_scope.

(** ** Strings *)

Abbreviation jsstring := (list N).

Definition wf_string (s : jsstring) : Prop := Forall (fun c => c < 65536) s.

(** An ASCII literal as a JavaScript string. *)
Definition js (s : string) : jsstring := List.map N_of_ascii (list_ascii_of_string s).

(** ** Values

    The values the function handles: what an element's [value] property
    yields, and what JSON text denotes.  A number is kept as the lexeme that
    denotes it: rounding to binary64 and number formatting belong to the host
    (see [Host]).  An object is its own properties in creation order, with
    distinct keys. *)

#[local] Set Warnings "-register-all".

Inductive JSValue : Type :=
| JUndefined
| JNull
| JBoolean (b : bool)
| JNumber (lexeme : jsstring)
| JString (s : jsstring)
| JArray (elements : list JSValue)
| JObject (properties : list (jsstring * JSValue)).

(** [[Get]] of an own data property. *)
Fixpoint own_property (key : jsstring) (properties : list (jsstring * JSValue))
  : option JSValue :=
  match properties with
  | [] => None
  | (k, v) :: rest => if decide (k = key) then Some v else own_property key rest
  end.

(** CreateDataProperty: a key already present keeps its position and takes
    the new value; a new key goes last. *)
Fixpoint define_property (key : jsstring) (v : JSValue)
    (properties : list (jsstring * JSValue)) : list (jsstring * JSValue) :=
  match properties with
  | [] => [(key, v)]
  | (k, v0) :: rest =>
      if decide (k = key) then (k, v) :: rest
      else (k, v0) :: define_property key v rest
  end.

(** ** JSON.stringify: QuoteJSONString *)

Definition is_high_surrogate (c : N) : bool := (55296 <=? c) && (c <=? 56319).
Definition is_low_surrogate (c : N) : bool := (56320 <=? c) && (c <=? 57343).

(** Lower-case hexadecimal digit for a value below 16. *)
Definition hex_digit (d : N) : N := if d <? 10 then 48 + d else 87 + d.

(** UnicodeEscape: backslash, u, four hexadecimal digits. *)
Definition unicode_escape (c : N) : jsstring :=
  [92; 117; hex_digit (c / 4096 mod 16); hex_digit (c / 256 mod 16);
   hex_digit (c / 16 mod 16); hex_digit (c mod 16)].

(** One code unit that is not half of a surrogate pair. *)
Definition quote_unit (c : N) : jsstring :=
  if c =? 8 then [92; 98]
  else if c =? 9 then [92; 116]
  else if c =? 10 then [92; 110]
  else if c =? 12 then [92; 102]
  else if c =? 13 then [92; 114]
  else if c =? 34 then [92; 34]
  else if c =? 92 then [92; 92]
  else if (c <? 32) || is_high_surrogate c || is_low_surrogate c
       then unicode_escape c
  else [c].

(** The string is read by code points: a high surrogate followed by a low one
    is one code point and is copied; a surrogate on its own is escaped. *)
Fixpoint quote_units (s : jsstring) : jsstring :=
  match s with
  | [] => []
  | c :: r =>
      match r with
      | d :: r' =>
          if is_high_surrogate c && is_low_surrogate d
          then c :: d :: quote_units r'
          else quote_unit c ++ quote_units r
      | [] => quote_unit c
      end
  end.

Definition QuoteJSONString (s : jsstring) : jsstring :=
  34 :: quote_units s ++ [34].

(** ** JSON.parse

    The grammar of ECMA-404 as JSON.parse reads it.  White space is tab, line
    feed, carriage return and space. *)

Inductive parsed (A : Type) : Type :=
| Parsed (a : A) (rest : jsstring)
| Malformed
| Exhausted.

Arguments Parsed {A} a rest.
Arguments Malformed {A}.
Arguments Exhausted {A}.

Definition is_ws (c : N) : bool :=
  (c =? 9) || (c =? 10) || (c =? 13) || (c =? 32).

Fixpoint skip_ws (s : jsstring) : jsstring :=
  match s with
  | c :: r => if is_ws c then skip_ws r else s
  | [] => []
  end.

Definition is_digit (c : N) : bool := (48 <=? c) && (c <=? 57).

Definition hex_value (h : N) : option N :=
  if (48 <=? h) && (h <=? 57) then Some (h - 48)
  else if (97 <=? h) && (h <=? 102) then Some (h - 87)
  else if (65 <=? h) && (h <=? 70) then Some (h - 55)
  else None.

Definition hex4 (h1 h2 h3 h4 : N) : option N :=
  match hex_value h1, hex_value h2, hex_value h3, hex_value h4 with
  | Some a, Some b, Some c, Some d => Some (4096 * a + 256 * b + 16 * c + d)
  | _, _, _, _ => None
  end.

(** The character after a backslash, other than u. *)
Definition single_escape (e : N) : option N :=
  if e =? 34 then Some 34
  else if e =? 92 then Some 92
  else if e =? 47 then Some 47
  else if e =? 98 then Some 8
  else if e =? 102 then Some 12
  else if e =? 110 then Some 10
  else if e =? 114 then Some 13
  else if e =? 116 then Some 9
  else None.

(** The characters of a string, after its opening quotation mark, up to and
    including the closing one. *)
Fixpoint parse_chars (s : jsstring) : option (jsstring * jsstring) :=
  match s with
  | [] => None
  | c :: r =>
      if c =? 34 then Some ([], r)
      else if c =? 92 then
        match r with
        | e :: r1 =>
            if e =? 117 then
              match r1 with
              | h1 :: h2 :: h3 :: h4 :: r2 =>
                  match hex4 h1 h2 h3 h4 with
                  | Some u =>
                      match parse_chars r2 with
                      | Some (t, rest) => Some (u :: t, rest)
                      | None => None
                      end
                  | None => None
                  end
              | _ => None
              end
            else
              match single_escape e with
              | Some u =>
                  match parse_chars r1 with
                  | Some (t, rest) => Some (u :: t, rest)
                  | None => None
                  end
              | None => None
              end
        | [] => None
        end
      else if c <? 32 then None
      else
        match parse_chars r with
        | Some (t, rest) => Some (c :: t, rest)
        | None => None
        end
  end.

Fixpoint span_digits (s : jsstring) : jsstring * jsstring :=
  match s with
  | c :: r =>
      if is_digit c then let (d, rest) := span_digits r in (c :: d, rest)
      else ([], s)
  | [] => ([], [])
  end.

(** int: a single 0, or a digit 1-9 followed by digits. *)
Definition parse_int (s : jsstring) : option (jsstring * jsstring) :=
  match s with
  | c :: r =>
      if c =? 48 then Some ([48], r)
      else if is_digit c then let (d, rest) := span_digits r in Some (c :: d, rest)
      else None
  | [] => None
  end.

(** frac: nothing, or a full stop followed by at least one digit. *)
Definition parse_frac (s : jsstring) : option (jsstring * jsstring) :=
  match s with
  | c :: r =>
      if c =? 46 then
        match span_digits r with
        | ([], _) => None
        | (d, rest) => Some (c :: d, rest)
        end
      else Some ([], s)
  | [] => Some ([], [])
  end.

(** exp: nothing, or e or E, an optional sign, at least one digit. *)
Definition parse_exp (s : jsstring) : option (jsstring * jsstring) :=
  match s with
  | c :: r =>
      if (c =? 101) || (c =? 69) then
        let (sign, r1) :=
          match r with
          | g :: r' => if (g =? 43) || (g =? 45) then ([g], r') else ([], r)
          | [] => ([], r)
          end in
        match span_digits r1 with
        | ([], _) => None
        | (d, rest) => Some (c :: sign ++ d, rest)
        end
      else Some ([], s)
  | [] => Some ([], [])
  end.

Definition parse_number (s : jsstring) : option (jsstring * jsstring) :=
  let (minus, s1) :=
    match s with
    | c :: r => if c =? 45 then ([c], r) else ([], s)
    | [] => ([], s)
    end in
  match parse_int s1 with
  | Some (i, s2) =>
      match parse_frac s2 with
      | Some (f, s3) =>
          match parse_exp s3 with
          | Some (e, s4) => Some (minus ++ i ++ f ++ e, s4)
          | None => None
          end
      | None => None
      end
  | None => None
  end.

Fixpoint strip_prefix (p s : jsstring) : option jsstring :=
  match p, s with
  | [], _ => Some s
  | a :: p', b :: s' => if a =? b then strip_prefix p' s' else None
  | _ :: _, [] => None
  end.

Definition lit_true : jsstring := Eval cbv in js "true".
Definition lit_false : jsstring := Eval cbv in js "false".
Definition lit_null : jsstring := Eval cbv in js "null".

Definition parse_literal (s : jsstring) : parsed JSValue :=
  match strip_prefix lit_true s with
  | Some rest => Parsed (JBoolean true) rest
  | None =>
  match strip_prefix lit_false s with
  | Some rest => Parsed (JBoolean false) rest
  | None =>
  match strip_prefix lit_null s with
  | Some rest => Parsed JNull rest
  | None =>
  match parse_number s with
  | Some (lexeme, rest) => Parsed (JNumber lexeme) rest
  | None => Malformed
  end end end end.

(** value, elements and members.  Each call spends one unit of [fuel]; a call
    that returns [Parsed] has read at least one code unit, so [Exhausted] is
    out of reach once the fuel exceeds twice the length of the text
    ([parse_value_fuel] below). *)
Fixpoint parse_value (fuel : nat) (s : jsstring) : parsed JSValue :=
  match fuel with
  | O => Exhausted
  | S fuel' =>
      match skip_ws s with
      | [] => Malformed
      | c :: r =>
          if c =? 123 then
            match skip_ws r with
            | d :: r' =>
                if d =? 125 then Parsed (JObject []) r'
                else parse_members fuel' (d :: r') []
            | [] => Malformed
            end
          else if c =? 91 then
            match skip_ws r with
            | d :: r' =>
                if d =? 93 then Parsed (JArray []) r'
                else parse_elements fuel' (d :: r') []
            | [] => Malformed
            end
          else if c =? 34 then
            match parse_chars r with
            | Some (t, rest) => Parsed (JString t) rest
            | None => Malformed
            end
          else parse_literal (c :: r)
      end
  end

with parse_elements (fuel : nat) (s : jsstring) (acc : list JSValue)
  : parsed JSValue :=
  match fuel with
  | O => Exhausted
  | S fuel' =>
      match parse_value fuel' s with
      | Parsed v r =>
          match skip_ws r with
          | c :: r' =>
              if c =? 44 then parse_elements fuel' r' (acc ++ [v])
              else if c =? 93 then Parsed (JArray (acc ++ [v])) r'
              else Malformed
          | [] => Malformed
          end
      | Malformed => Malformed
      | Exhausted => Exhausted
      end
  end

with parse_members (fuel : nat) (s : jsstring) (acc : list (jsstring * JSValue))
  : parsed JSValue :=
  match fuel with
  | O => Exhausted
  | S fuel' =>
      match skip_ws s with
      | c :: r =>
          if c =? 34 then
            match parse_chars r with
            | Some (key, r1) =>
                match skip_ws r1 with
                | c1 :: r2 =>
                    if c1 =? 58 then
                      match parse_value fuel' r2 with
                      | Parsed v r3 =>
                          match skip_ws r3 with
                          | c3 :: r4 =>
                              if c3 =? 44
                              then parse_members fuel' r4 (define_property key v acc)
                              else if c3 =? 125
                              then Parsed (JObject (define_property key v acc)) r4
                              else Malformed
                          | [] => Malformed
                          end
                      | Malformed => Malformed
                      | Exhausted => Exhausted
                      end
                    else Malformed
                | [] => Malformed
                end
            | None => Malformed
            end
          else Malformed
      | [] => Malformed
      end
  end.

(** JSON.parse: one value, white space around it, nothing after.  [None] is
    the SyntaxError. *)
Definition JSON_parse (text : jsstring) : option JSValue :=
  match parse_value (2 * length text + 2) text with
  | Parsed v rest => match skip_ws rest with [] => Some v | _ :: _ => None end
  | Malformed | Exhausted => None
  end.

(** ** The host: page, network, number formatting *)

(** A page element as the function sees it: its [value] property (a text for
    a form control, absent otherwise, which reads as undefined) and its
    [innerText].  Layout and rendering are not modelled. *)
Record Element : Type := {
  value : option jsstring;
  innerText : jsstring
}.

(** A call of fetch: the resource and the members of its init object. *)
Record Request : Type := {
  url : jsstring;
  method : jsstring;
  headers : list (jsstring * jsstring);
  body : option jsstring
}.

(** Reading the body of a response to its end: it may never end, fail on the
    way, or give the text (decoded, byte order mark removed). *)
Inductive BodyOutcome : Type :=
| BodyPending
| BodyFailed
| BodyText (text : jsstring).

Record Response : Type := {
  status : N;
  payload : BodyOutcome
}.

(** The promise fetch returns: it may never settle, reject (network error),
    or resolve to a response, whatever its status. *)
Inductive FetchOutcome : Type :=
| FetchPending
| FetchRejected
| FetchResponse (r : Response).

(** What the function does not decide: how the network answers a request, and
    binary64 number formatting (Number::toString of the number a lexeme
    denotes, and whether that number is finite). *)
Record Host : Type := {
  server : Request -> FetchOutcome;
  Number_toString : jsstring -> jsstring;
  Number_isFinite : jsstring -> bool
}.

(** The page by element id, the fetch calls made so far, the console. *)
Record World : Type := {
  document : gmap jsstring Element;
  requests : list Request;
  console : list jsstring
}.

Inductive Exception : Type :=
| TypeError
| SyntaxError.

(** ** Conversions *)

Fixpoint join_comma (parts : list jsstring) : jsstring :=
  match parts with
  | [] => []
  | [p] => p
  | p :: rest => p ++ 44 :: join_comma rest
  end.

Definition lit_undefined : jsstring := Eval cbv in js "undefined".
Definition lit_object : jsstring := Eval cbv in js "[object Object]".
Definition key_toString : jsstring := Eval cbv in js "toString".

(** ToString, given Number::toString.  [None] is the TypeError of
    OrdinaryToPrimitive: an object of this model holds no function, so an own
    toString property hides Object.prototype.toString and leaves nothing that
    yields a primitive.  An array goes through Array.prototype.join, where
    null and undefined elements give the empty string. *)
Fixpoint ToString (number : jsstring -> jsstring) (v : JSValue) : option jsstring :=
  match v with
  | JUndefined => Some lit_undefined
  | JNull => Some lit_null
  | JBoolean b => Some (if b then lit_true else lit_false)
  | JNumber lexeme => Some (number lexeme)
  | JString s => Some s
  | JArray elements =>
      let fix parts (l : list JSValue) : option (list jsstring) :=
        match l with
        | [] => Some []
        | e :: l' =>
            match
              match e with
              | JUndefined | JNull => Some []
              | _ => ToString number e
              end
            with
            | Some t =>
                match parts l' with
                | Some ts => Some (t :: ts)
                | None => None
                end
            | None => None
            end
        end in
      match parts elements with
      | Some ts => Some (join_comma ts)
      | None => None
      end
  | JObject properties =>
      match own_property key_toString properties with
      | Some _ => None
      | None => Some lit_object
      end
  end.

(** The innerText setter takes a DOMString with LegacyNullToEmptyString: null
    becomes the empty string, every other value goes through ToString. *)
Definition to_innerText (h : Host) (v : JSValue) : option jsstring :=
  match v with
  | JNull => Some []
  | _ => ToString (Number_toString h) v
  end.

(** JSON.stringify (no replacer, no gap): SerializeJSONProperty.  [None] is
    the undefined result.  No value of this model has a callable toJSON. *)
Fixpoint JSON_stringify (h : Host) (v : JSValue) : option jsstring :=
  match v with
  | JUndefined => None
  | JNull => Some lit_null
  | JBoolean b => Some (if b then lit_true else lit_false)
  | JNumber lexeme =>
      Some (if Number_isFinite h lexeme then Number_toString h lexeme else lit_null)
  | JString s => Some (QuoteJSONString s)
  | JArray elements =>
      let fix parts (l : list JSValue) : list jsstring :=
        match l with
        | [] => []
        | e :: l' =>
            match JSON_stringify h e with
            | Some t => t
            | None => lit_null
            end :: parts l'
        end in
      Some (91 :: join_comma (parts elements) ++ [93])
  | JObject properties =>
      let fix members (l : list (jsstring * JSValue)) : list jsstring :=
        match l with
        | [] => []
        | (k, e) :: l' =>
            match JSON_stringify h e with
            | Some t => (QuoteJSONString k ++ 58 :: t) :: members l'
            | None => members l'
            end
        end in
      Some (123 :: join_comma (members properties) ++ [125])
  end.

(** ** Asynchronous computations

    An async function body run to its end over the world: it returns, throws,
    or stays suspended at an await whose promise never settles.  For
    [sendMessage] itself, [Normal] is the fulfilled promise and [Thrown] the
    rejected one (the uncaught exception). *)

Inductive Outcome (A : Type) : Type :=
| Normal (a : A) (w : World)
| Thrown (e : Exception) (w : World)
| Suspended (w : World).

Arguments Normal {A} a w.
Arguments Thrown {A} e w.
Arguments Suspended {A} w.

Definition Async (A : Type) : Type := World -> Outcome A.

Definition ret {A : Type} (a : A) : Async A := fun w => Normal a w.

Definition throw {A : Type} (e : Exception) : Async A := fun w => Thrown e w.

Definition bind {A B : Type} (c : Async A) (k : A -> Async B) : Async B :=
  fun w =>
    match c w with
    | Normal a w' => k a w'
    | Thrown e w' => Thrown e w'
    | Suspended w' => Suspended w'
    end.

(** try { c } catch (error) { handler } *)
Definition try_catch {A : Type} (c : Async A) (handler : Exception -> Async A)
  : Async A :=
  fun w =>
    match c w with
    | Normal a w' => Normal a w'
    | Thrown e w' => handler e w'
    | Suspended w' => Suspended w'
    end.

Notation "x <- c ;; k" := (bind c (fun x => k))
  (at level 100, c at next level, right associativity).

Definition world_of {A : Type} (o : Outcome A) : World :=
  match o with
  | Normal _ w | Thrown _ w | Suspended w => w
  end.

(** ** Host operations *)

(** An element handle is its id; [None] is null. *)
Definition getElementById (id : jsstring) : Async (option jsstring) :=
  fun w =>
    match document w !! id with
    | Some _ => Normal (Some id) w
    | None => Normal None w
    end.

(** handle.value: a TypeError on null.  Nothing here removes an element, so a
    handle got from [getElementById] stays bound. *)
Definition get_value (handle : option jsstring) : Async JSValue :=
  fun w =>
    match handle with
    | None => Thrown TypeError w
    | Some id =>
        match document w !! id with
        | Some el =>
            Normal match value el with
                   | Some text => JString text
                   | None => JUndefined
                   end w
        | None => Thrown TypeError w
        end
    end.

(** handle.innerText = v: a TypeError on null or when the conversion of [v]
    throws; otherwise the element's text is replaced. *)
Definition set_innerText (h : Host) (handle : option jsstring) (v : JSValue)
  : Async unit :=
  fun w =>
    match handle with
    | None => Thrown TypeError w
    | Some id =>
        match to_innerText h v with
        | Some text =>
            Normal tt
              {| document :=
                   alter (fun el => {| value := value el; innerText := text |})
                         id (document w);
                 requests := requests w;
                 console := console w |}
        | None => Thrown TypeError w
        end
    end.

(** await fetch(...): the call is recorded, then the promise is awaited. *)
Definition fetch (h : Host) (req : Request) : Async Response :=
  fun w =>
    let w' := {| document := document w;
                 requests := requests w ++ [req];
                 console := console w |} in
    match server h req with
    | FetchPending => Suspended w'
    | FetchRejected => Thrown TypeError w'
    | FetchResponse r => Normal r w'
    end.

(** await res.json() *)
Definition Response_json (res : Response) : Async JSValue :=
  fun w =>
    match payload res with
    | BodyPending => Suspended w
    | BodyFailed => Thrown TypeError w
    | BodyText text =>
        match JSON_parse text with
        | Some v => Normal v w
        | None => Thrown SyntaxError w
        end
    end.

(** data.response: [key] is a name that no built-in prototype defines, so the
    lookup ends at own properties.  null and undefined have no properties. *)
Definition get_property (data : JSValue) (key : jsstring) : Async JSValue :=
  fun w =>
    match data with
    | JUndefined | JNull => Thrown TypeError w
    | JObject properties =>
        Normal match own_property key properties with
               | Some v => v
               | None => JUndefined
               end w
    | _ => Normal JUndefined w
    end.

(** ** The function *)

Definition id_message : jsstring := Eval cbv in js "message".
Definition id_response : jsstring := Eval cbv in js "response".
Definition key_message : jsstring := Eval cbv in js "message".
Definition key_response : jsstring := Eval cbv in js "response".
Definition api_chat : jsstring := Eval cbv in js "/api/chat".
Definition POST : jsstring := Eval cbv in js "POST".
Definition Content_Type : jsstring := Eval cbv in js "Content-Type".
Definition application_json : jsstring := Eval cbv in js "application/json".
Definition error_text : jsstring :=
  Eval cbv in js "An error occurred while sending the message.".

Definition sendMessage (h : Host) : Async unit :=
  messageInput <- getElementById id_message ;;
  message <- get_value messageInput ;;
  responseArea <- getElementById id_response ;;
  try_catch
    (res <- fetch h {| url := api_chat;
                       method := POST;
                       headers := [(Content_Type, application_json)];
                       body := JSON_stringify h (JObject [(key_message, message)]) |} ;;
     data <- Response_json res ;;
     response <- get_property data key_response ;;
     set_innerText h responseArea response)
    (fun error => set_innerText h responseArea (JString error_text)).

(** ** Notions used in the statements *)

(** What [parse_chars] does with the rest once it has read one unit. *)
Definition push_unit (c : N) (r : option (jsstring * jsstring))
  : option (jsstring * jsstring) :=
  match r with
  | Some (t, rest) => Some (c :: t, rest)
  | None => None
  end.

(** The text JSON.stringify gives for { message: text }. *)
Definition message_payload (text : jsstring) : jsstring :=
  123 :: (QuoteJSONString key_message ++ 58 :: QuoteJSONString text) ++ [125].

(** What [messageInput.value] reads. *)
Definition message_of (el : Element) : JSValue :=
  match value el with
  | Some text => JString text
  | None => JUndefined
  end.

(** The fetch call of the function, for a given [message]. *)
Definition chat_request (h : Host) (message : JSValue) : Request :=
  {| url := api_chat;
     method := POST;
     headers := [(Content_Type, application_json)];
     body := JSON_stringify h (JObject [(key_message, message)]) |}.

(** The world once [req] has been passed to fetch. *)
Definition sent (req : Request) (w : World) : World :=
  {| document := document w;
     requests := requests w ++ [req];
     console := console w |}.

(** The world once [text] has been assigned to the innerText of [id]. *)
Definition show (id : jsstring) (text : jsstring) (w : World) : World :=
  {| document :=
       alter (fun el => {| value := value el; innerText := text |}) id (document w);
     requests := requests w;
     console := console w |}.

(** The text of the output element, when the page has one. *)
Definition shown (w : World) : option jsstring :=
  innerText <$> document w !! id_response.

(** [data.response]; [None] is the TypeError. *)
Definition response_field (data : JSValue) : option JSValue :=
  match data with
  | JUndefined | JNull => None
  | JObject properties =>
      Some (default JUndefined (own_property key_response properties))
  | _ => Some JUndefined
  end.

(** The text the try block assigns, when it reaches the assignment and the
    assignment does not throw. *)
Definition served_text (h : Host) (o : FetchOutcome) : option jsstring :=
  match o with
  | FetchResponse r =>
      match payload r with
      | BodyText text =>
          match JSON_parse text with
          | Some data =>
              match response_field data with
              | Some v => to_innerText h v
              | None => None
              end
          | None => None
          end
      | _ => None
      end
  | _ => None
  end.

(** Both awaited promises settle. *)
Definition settles (o : FetchOutcome) : bool :=
  match o with
  | FetchPending => false
  | FetchRejected => true
  | FetchResponse r =>
      match payload r with
      | BodyPending => false
      | _ => true
      end
  end.

(** The network call is rejected, the body cannot be read, or the body is
    not JSON text. *)
Definition request_or_parse_failure (o : FetchOutcome) : bool :=
  match o with
  | FetchPending => false
  | FetchRejected => true
  | FetchResponse r =>
      match payload r with
      | BodyPending => false
      | BodyFailed => true
      | BodyText text =>
          match JSON_parse text with
          | Some _ => false
          | None => true
          end
      end
  end.

(** A page with an input element, holding [text] when it is a text control,
    and an output element showing [out]. *)
Definition chat_page (text : option jsstring) (out : jsstring) : World :=
  {| document :=
       <[id_message := {| value := text; innerText := [] |}]>
         (<[id_response := {| value := None; innerText := out |}]> ∅);
     requests := [];
     console := [] |}.

(** A host whose server answers every request with one outcome.  Numbers are
    printed as they were written. *)
Definition host_answering (o : FetchOutcome) : Host :=
  {| server := fun _ => o;
     Number_toString := fun lexeme => lexeme;
     Number_isFinite := fun _ => true |}.

Definition reply (st : N) (text : jsstring) : FetchOutcome :=
  FetchResponse {| status := st; payload := BodyText text |}.

(** A page with the output element only. *)
Definition output_only_page (out : jsstring) : World :=
  {| document := {[ id_response := {| value := None; innerText := out |} ]};
     requests := [];
     console := [] |}.

(** The text of an object whose one member response holds [hello]. *)
Definition hello_reply : jsstring :=
  [123; 34] ++ key_response ++ [34; 58; 34; 104; 101; 108; 108; 111; 34; 125].

(** The same outcome, the status of the response replaced by [st]. *)
Definition with_status (st : N) (o : FetchOutcome) : FetchOutcome :=
  match o with
  | FetchResponse r => FetchResponse {| status := st; payload := payload r |}
  | _ => o
  end.

(** The same host, every response carrying the status [st]. *)
Definition host_with_status (st : N) (h : Host) : Host :=
  {| server := fun req => with_status st (server h req);
     Number_toString := Number_toString h;
     Number_isFinite := Number_isFinite h |}.

(** A page with the input element only, holding [text]. *)
Definition input_only_page (text : jsstring) : World :=
  {| document := {[ id_message := {| value := Some text; innerText := [] |} ]};
     requests := [];
     console := [] |}.



(** A JSON value that is not null and not an object: a boolean, a number, a
    string or an array. *)
Definition non_object (data : JSValue) : bool :=
  match data with
  | JBoolean _ | JNumber _ | JString _ | JArray _ => true
  | JUndefined | JNull | JObject _ => false
  end.

(** * Properties *)

(** ** The JSON functions on small inputs *)

Example JSON_parse_nested :
  JSON_parse (js " { } ") = Some (JObject [])
  /\ JSON_parse (js "[1, -2.5e+3, true, null, [], {}]")
     = Some (JArray [JNumber (js "1"); JNumber (js "-2.5e+3"); JBoolean true;
                     JNull; JArray []; JObject []]).
Proof. split; reflexivity. Qed.

Example JSON_parse_rejects :
  JSON_parse (js "01") = None
  /\ JSON_parse (js "[1,]") = None
  /\ JSON_parse (js "<html>") = None
  /\ JSON_parse [] = None
  /\ JSON_parse (js "{} x") = None.
Proof. repeat split; reflexivity. Qed.

(** A repeated key keeps its first position and its last value. *)
Example JSON_parse_repeated_key :
  JSON_parse ([123; 34; 97; 34; 58] ++ js "1, " ++ [34; 98; 34; 58] ++ js "2, "
              ++ [34; 97; 34; 58] ++ js "3}")
  = Some (JObject [([97], JNumber (js "3")); ([98], JNumber (js "2"))]).
Proof. reflexivity. Qed.

(** An escape written with capital hexadecimal digits. *)
Example JSON_parse_escape :
  JSON_parse [34; 92; 117; 48; 48; 52; 66; 92; 110; 34] = Some (JString [75; 10]).
Proof. reflexivity. Qed.

(** A line feed, a quotation mark, a surrogate pair (copied) and a high
    surrogate on its own (escaped). *)
Example QuoteJSONString_escapes :
  QuoteJSONString [10; 34; 55357; 56832; 55357]
  = [34; 92; 110; 92; 34; 55357; 56832; 92; 117; 100; 56; 51; 100; 34].
Proof. reflexivity. Qed.

Example ToString_array :
  ToString (fun lexeme => lexeme)
           (JArray [JNumber (js "1"); JNull; JArray [JBoolean false; JString (js "a")]])
  = Some (js "1,,false,a").
Proof. reflexivity. Qed.

Example ToString_object :
  ToString (fun lexeme => lexeme) (JObject [(key_response, JNull)]) = Some lit_object
  /\ ToString (fun lexeme => lexeme) (JObject [(key_toString, JNull)]) = None.
Proof. split; reflexivity. Qed.

(** ** JSON: what QuoteJSONString writes, parse_chars reads back *)

Section Quote.

(** A 16-bit number is the sum of its four hexadecimal digits. *)
Lemma nibbles_sum (c : N) :
  c < 65536 ->
  4096 * (c / 4096 mod 16) + 256 * (c / 256 mod 16)
    + 16 * (c / 16 mod 16) + c mod 16 = c.
Proof.
  intros Hc.
  replace (c / 256) with (c / 16 / 16)
    by (rewrite N.Div0.div_div; reflexivity).
  replace (c / 4096) with (c / 16 / 16 / 16)
    by (rewrite !N.Div0.div_div; reflexivity).
  assert (Htop : c / 16 / 16 / 16 / 16 = 0)
    by (rewrite !N.Div0.div_div; apply N.div_small; exact Hc).
  pose proof (N.div_mod c 16 ltac:(discriminate)) as E0.
  pose proof (N.div_mod (c / 16) 16 ltac:(discriminate)) as E1.
  pose proof (N.div_mod (c / 16 / 16) 16 ltac:(discriminate)) as E2.
  pose proof (N.div_mod (c / 16 / 16 / 16) 16 ltac:(discriminate)) as E3.
  rewrite Htop in E3.
  generalize dependent (c / 16 / 16 / 16 mod 16).
  generalize dependent (c / 16 / 16 mod 16).
  generalize dependent (c / 16 mod 16).
  generalize dependent (c mod 16).
  generalize dependent (c / 16 / 16 / 16).
  generalize dependent (c / 16 / 16).
  generalize dependent (c / 16).
  intros. lia.
Qed.

Lemma hex_value_hex_digit (d : N) : d < 16 -> hex_value (hex_digit d) = Some d.
Proof.
  intros Hd. unfold hex_digit, hex_value.
  destruct (N.ltb_spec d 10).
  - replace ((48 <=? 48 + d) && (48 + d <=? 57)) with true
      by (symmetry; apply andb_true_intro; split; apply N.leb_le; lia).
    f_equal. lia.
  - replace ((48 <=? 87 + d) && (87 + d <=? 57)) with false
      by (symmetry; apply andb_false_intro2; apply N.leb_gt; lia).
    replace ((97 <=? 87 + d) && (87 + d <=? 102)) with true
      by (symmetry; apply andb_true_intro; split; apply N.leb_le; lia).
    f_equal. lia.
Qed.

Lemma hex4_unicode_digits (c : N) :
  c < 65536 ->
  hex4 (hex_digit (c / 4096 mod 16)) (hex_digit (c / 256 mod 16))
       (hex_digit (c / 16 mod 16)) (hex_digit (c mod 16)) = Some c.
Proof.
  intros Hc. unfold hex4.
  rewrite !hex_value_hex_digit by (apply N.mod_lt; discriminate).
  f_equal. apply nibbles_sum, Hc.
Qed.

Lemma parse_chars_plain (c : N) (tail : jsstring) :
  32 <= c -> c <> 34 -> c <> 92 ->
  parse_chars (c :: tail) = push_unit c (parse_chars tail).
Proof.
  intros H32 H34 H92. cbn [parse_chars].
  destruct (N.eqb_spec c 34); [contradiction|].
  destruct (N.eqb_spec c 92); [contradiction|].
  destruct (N.ltb_spec c 32); [lia|]. reflexivity.
Qed.

Lemma parse_chars_escape (h1 h2 h3 h4 : N) (tail : jsstring) :
  parse_chars (92 :: 117 :: h1 :: h2 :: h3 :: h4 :: tail) =
  match hex4 h1 h2 h3 h4 with
  | Some u => push_unit u (parse_chars tail)
  | None => None
  end.
Proof. reflexivity. Qed.

Lemma parse_chars_quote_unit (c : N) (tail : jsstring) :
  c < 65536 ->
  parse_chars (quote_unit c ++ tail) = push_unit c (parse_chars tail).
Proof.
  intros Hc. unfold quote_unit.
  repeat match goal with
         | |- context [N.eqb c ?k] =>
             destruct (N.eqb_spec c k); [subst c; reflexivity|]
         end.
  destruct ((c <? 32) || is_high_surrogate c || is_low_surrogate c) eqn:Hesc.
  - unfold unicode_escape. cbn [app].
    rewrite parse_chars_escape, hex4_unicode_digits by assumption.
    reflexivity.
  - apply orb_false_elim in Hesc as [Hesc _].
    apply orb_false_elim in Hesc as [Hlt _].
    apply N.ltb_ge in Hlt.
    cbn [app]. apply parse_chars_plain; assumption.
Qed.

Lemma parse_chars_surrogate (c : N) (tail : jsstring) :
  is_high_surrogate c || is_low_surrogate c = true ->
  parse_chars (c :: tail) = push_unit c (parse_chars tail).
Proof.
  intros Hs. unfold is_high_surrogate, is_low_surrogate in Hs.
  apply parse_chars_plain;
    apply orb_prop in Hs as [Hs|Hs];
    apply andb_prop in Hs as [Hlo _]; apply N.leb_le in Hlo; lia.
Qed.

(** The characters of a quoted string, whatever follows the closing
    quotation mark, read back as the string. *)
Lemma parse_chars_quote_units (s rest : jsstring) :
  wf_string s ->
  parse_chars (quote_units s ++ 34 :: rest) = Some (s, rest).
Proof.
  remember (length s) as n eqn:Hn. revert s Hn.
  induction n as [n IH] using lt_wf_ind. intros s Hn Hwf.
  destruct s as [|c r]; [reflexivity|].
  apply Forall_cons in Hwf as [Hc Hr]. cbn [quote_units].
  destruct r as [|d r'].
  - rewrite parse_chars_quote_unit by assumption. reflexivity.
  - destruct (is_high_surrogate c && is_low_surrogate d) eqn:Hpair.
    + apply andb_prop in Hpair as [Hhi Hlo].
      apply Forall_cons in Hr as [Hd Hr'].
      cbn [app].
      rewrite parse_chars_surrogate by (rewrite Hhi; reflexivity).
      rewrite parse_chars_surrogate by (rewrite Hlo; apply orb_true_r).
      rewrite (IH (length r')) by (subst n; cbn; solve [lia | auto]).
      reflexivity.
    + rewrite <- app_assoc, parse_chars_quote_unit by assumption.
      rewrite (IH (length (d :: r'))) by (subst n; cbn; solve [lia | auto]).
      reflexivity.
Qed.

End Quote.

(** ** JSON.parse: the fuel is enough *)

Section Fuel.

Lemma parse_value_S (fuel : nat) (s : jsstring) :
  parse_value (S fuel) s =
  match skip_ws s with
  | [] => Malformed
  | c :: r =>
      if c =? 123 then
        match skip_ws r with
        | d :: r' =>
            if d =? 125 then Parsed (JObject []) r'
            else parse_members fuel (d :: r') []
        | [] => Malformed
        end
      else if c =? 91 then
        match skip_ws r with
        | d :: r' =>
            if d =? 93 then Parsed (JArray []) r'
            else parse_elements fuel (d :: r') []
        | [] => Malformed
        end
      else if c =? 34 then
        match parse_chars r with
        | Some (t, rest) => Parsed (JString t) rest
        | None => Malformed
        end
      else parse_literal (c :: r)
  end.
Proof. reflexivity. Qed.

Lemma parse_elements_S (fuel : nat) (s : jsstring) (acc : list JSValue) :
  parse_elements (S fuel) s acc =
  match parse_value fuel s with
  | Parsed v r =>
      match skip_ws r with
      | c :: r' =>
          if c =? 44 then parse_elements fuel r' (acc ++ [v])
          else if c =? 93 then Parsed (JArray (acc ++ [v])) r'
          else Malformed
      | [] => Malformed
      end
  | Malformed => Malformed
  | Exhausted => Exhausted
  end.
Proof. reflexivity. Qed.

Lemma parse_members_S (fuel : nat) (s : jsstring)
    (acc : list (jsstring * JSValue)) :
  parse_members (S fuel) s acc =
  match skip_ws s with
  | c :: r =>
      if c =? 34 then
        match parse_chars r with
        | Some (key, r1) =>
            match skip_ws r1 with
            | c1 :: r2 =>
                if c1 =? 58 then
                  match parse_value fuel r2 with
                  | Parsed v r3 =>
                      match skip_ws r3 with
                      | c3 :: r4 =>
                          if c3 =? 44
                          then parse_members fuel r4 (define_property key v acc)
                          else if c3 =? 125
                          then Parsed (JObject (define_property key v acc)) r4
                          else Malformed
                      | [] => Malformed
                      end
                  | Malformed => Malformed
                  | Exhausted => Exhausted
                  end
                else Malformed
            | [] => Malformed
            end
        | None => Malformed
        end
      else Malformed
  | [] => Malformed
  end.
Proof. reflexivity. Qed.

Local Open Scope nat_scope.

Lemma skip_ws_length (s r : jsstring) : skip_ws s = r -> length r <= length s.
Proof.
  intros <-. induction s as [|c s IH]; cbn; [lia|].
  destruct (is_ws c); cbn; lia.
Qed.

Lemma parse_chars_length (s t r : jsstring) :
  parse_chars s = Some (t, r) -> length r < length s.
Proof.
  remember (length s) as n eqn:Hn. revert s t r Hn.
  induction n as [n IH] using lt_wf_ind. intros s t r Hn H. subst n.
  assert (Hrec : forall s' t' r',
             length s' < length s ->
             parse_chars s' = Some (t', r') -> length r' < length s').
  { intros s' t' r' Hlt Hs'. exact (IH _ Hlt s' t' r' eq_refl Hs'). }
  clear IH.
  destruct s as [|c s]; [discriminate|]. cbn [parse_chars] in H.
  destruct (c =? 34)%N.
  { injection H as _ <-. cbn. lia. }
  destruct (c =? 92)%N.
  - destruct s as [|e s]; [discriminate|].
    destruct (e =? 117)%N.
    + destruct s as [|h1 [|h2 [|h3 [|h4 s]]]]; try discriminate.
      destruct (hex4 h1 h2 h3 h4); [|discriminate].
      destruct (parse_chars s) as [[t' r']|] eqn:Hs; [|discriminate].
      injection H as _ <-.
      apply Hrec in Hs; cbn in *; lia.
    + destruct (single_escape e); [|discriminate].
      destruct (parse_chars s) as [[t' r']|] eqn:Hs; [|discriminate].
      injection H as _ <-.
      apply Hrec in Hs; cbn in *; lia.
  - destruct (c <? 32)%N; [discriminate|].
    destruct (parse_chars s) as [[t' r']|] eqn:Hs; [|discriminate].
    injection H as _ <-.
    apply Hrec in Hs; cbn in *; lia.
Qed.

Lemma span_digits_length (s d r : jsstring) :
  span_digits s = (d, r) -> length r <= length s.
Proof.
  revert d r. induction s as [|c s IH]; intros d r H; cbn in H.
  - injection H as _ <-. cbn. lia.
  - destruct (is_digit c).
    + destruct (span_digits s) as [d' r'] eqn:Hs. injection H as _ <-.
      specialize (IH _ _ eq_refl). cbn. lia.
    + injection H as _ <-. cbn. lia.
Qed.

Lemma strip_prefix_length (p s r : jsstring) :
  strip_prefix p s = Some r -> length r + length p = length s.
Proof.
  revert s. induction p as [|a p IH]; intros s H; cbn in H.
  - injection H as <-. cbn. lia.
  - destruct s as [|b s]; [discriminate|].
    destruct (a =? b)%N; [|discriminate].
    apply IH in H. cbn. lia.
Qed.

Lemma parse_number_length (s lexeme r : jsstring) :
  parse_number s = Some (lexeme, r) -> length r < length s.
Proof.
  unfold parse_number. intros H.
  set (head := match s with
               | c :: r0 => if (c =? 45)%N then ([c], r0) else ([], s)
               | [] => ([], s)
               end) in H.
  assert (Hhead : length (snd head) <= length s).
  { subst head. destruct s as [|c r0]; [cbn; lia|].
    destruct (c =? 45)%N; cbn; lia. }
  destruct head as [minus s1]. cbn [snd] in Hhead.
  assert (Hint : forall i s2, parse_int s1 = Some (i, s2) -> length s2 < length s1).
  { intros i s2. unfold parse_int. destruct s1 as [|c r0]; [discriminate|].
    destruct (c =? 48)%N.
    - intros [= _ <-]. cbn. lia.
    - destruct (is_digit c); [|discriminate].
      destruct (span_digits r0) as [d rest] eqn:Hd. intros [= _ <-].
      apply span_digits_length in Hd. cbn. lia. }
  assert (Hfrac : forall s2 f s3, parse_frac s2 = Some (f, s3) -> length s3 <= length s2).
  { intros s2 f s3. unfold parse_frac. destruct s2 as [|c r0].
    - intros [= _ <-]. cbn. lia.
    - destruct (c =? 46)%N.
      + destruct (span_digits r0) as [d rest] eqn:Hd.
        apply span_digits_length in Hd.
        destruct d; [discriminate|]. intros [= _ <-]. cbn. lia.
      + intros [= _ <-]. cbn. lia. }
  assert (Hexp : forall s3 e s4, parse_exp s3 = Some (e, s4) -> length s4 <= length s3).
  { intros s3 e s4. unfold parse_exp. destruct s3 as [|c r0].
    - intros [= _ <-]. cbn. lia.
    - destruct ((c =? 101)%N || (c =? 69)%N).
      + set (sg := match r0 with
                   | g :: r' => if (g =? 43)%N || (g =? 45)%N then ([g], r') else ([], r0)
                   | [] => ([], r0)
                   end).
        assert (Hsg : length (snd sg) <= length r0).
        { subst sg. destruct r0 as [|g r']; [cbn; lia|].
          destruct ((g =? 43)%N || (g =? 45)%N); cbn; lia. }
        destruct sg as [sign r1]. cbn [snd] in Hsg.
        destruct (span_digits r1) as [d rest] eqn:Hd.
        apply span_digits_length in Hd.
        destruct d; [discriminate|]. intros [= _ <-]. cbn. lia.
      + intros [= _ <-]. cbn. lia. }
  destruct (parse_int s1) as [[i s2]|] eqn:Hi; [|discriminate].
  destruct (parse_frac s2) as [[f s3]|] eqn:Hf; [|discriminate].
  destruct (parse_exp s3) as [[e s4]|] eqn:He; [|discriminate].
  injection H as _ <-.
  specialize (Hint _ _ eq_refl). apply Hfrac in Hf. apply Hexp in He. lia.
Qed.

Lemma parse_literal_length (s : jsstring) (v : JSValue) (r : jsstring) :
  parse_literal s = Parsed v r -> length r < length s.
Proof.
  unfold parse_literal. intros H.
  destruct (strip_prefix lit_true s) eqn:Ht.
  { injection H as _ <-. apply strip_prefix_length in Ht. cbn in Ht. lia. }
  destruct (strip_prefix lit_false s) eqn:Hf.
  { injection H as _ <-. apply strip_prefix_length in Hf. cbn in Hf. lia. }
  destruct (strip_prefix lit_null s) eqn:Hn.
  { injection H as _ <-. apply strip_prefix_length in Hn. cbn in Hn. lia. }
  destruct (parse_number s) as [[lexeme rest]|] eqn:Hnum; [|discriminate].
  injection H as _ <-. apply parse_number_length in Hnum. exact Hnum.
Qed.

Lemma parse_literal_not_Exhausted (s : jsstring) : parse_literal s <> Exhausted.
Proof.
  unfold parse_literal.
  destruct (strip_prefix lit_true s); [discriminate|].
  destruct (strip_prefix lit_false s); [discriminate|].
  destruct (strip_prefix lit_null s); [discriminate|].
  destruct (parse_number s) as [[lexeme rest]|]; discriminate.
Qed.

(** Turn what is known of the pieces of a parse into facts on lengths. *)
Ltac parse_lengths :=
  repeat match goal with
         | H : skip_ws _ = _ |- _ => apply skip_ws_length in H
         | H : parse_chars _ = Some _ |- _ => apply parse_chars_length in H
         | H : parse_literal _ = Parsed _ _ |- _ => apply parse_literal_length in H
         end;
  cbn [length] in *.

(** A successful parse reads at least one code unit. *)
Lemma parse_reads (fuel : nat) :
  (forall s v r, parse_value fuel s = Parsed v r -> length r < length s)
  /\ (forall s acc v r, parse_elements fuel s acc = Parsed v r -> length r < length s)
  /\ (forall s acc v r, parse_members fuel s acc = Parsed v r -> length r < length s).
Proof.
  induction fuel as [|fuel (IHv & IHe & IHm)].
  { repeat split; intros; discriminate. }
  repeat split.
  - intros s v r. rewrite parse_value_S.
    destruct (skip_ws s) as [|c r0] eqn:Hs; [discriminate|].
    destruct (c =? 123)%N; [|destruct (c =? 91)%N; [|destruct (c =? 34)%N]].
    + destruct (skip_ws r0) as [|d r1] eqn:Hr0; [discriminate|].
      destruct (d =? 125)%N.
      * intros [= _ <-]. parse_lengths. lia.
      * intros H. apply IHm in H. parse_lengths. lia.
    + destruct (skip_ws r0) as [|d r1] eqn:Hr0; [discriminate|].
      destruct (d =? 93)%N.
      * intros [= _ <-]. parse_lengths. lia.
      * intros H. apply IHe in H. parse_lengths. lia.
    + destruct (parse_chars r0) as [[t rest]|] eqn:Hc; [|discriminate].
      intros [= _ <-]. parse_lengths. lia.
    + intros H. parse_lengths. lia.
  - intros s acc v r. rewrite parse_elements_S.
    destruct (parse_value fuel s) as [v0 r0| |] eqn:Hv; try discriminate.
    apply IHv in Hv.
    destruct (skip_ws r0) as [|c r1] eqn:Hr0; [discriminate|].
    destruct (c =? 44)%N; [|destruct (c =? 93)%N; [|discriminate]].
    + intros H. apply IHe in H. parse_lengths. lia.
    + intros [= _ <-]. parse_lengths. lia.
  - intros s acc v r. rewrite parse_members_S.
    destruct (skip_ws s) as [|c r0] eqn:Hs; [discriminate|].
    destruct (c =? 34)%N; [|discriminate].
    destruct (parse_chars r0) as [[key r1]|] eqn:Hc; [|discriminate].
    destruct (skip_ws r1) as [|c1 r2] eqn:Hr1; [discriminate|].
    destruct (c1 =? 58)%N; [|discriminate].
    destruct (parse_value fuel r2) as [v0 r3| |] eqn:Hv; try discriminate.
    apply IHv in Hv.
    destruct (skip_ws r3) as [|c3 r4] eqn:Hr3; [discriminate|].
    destruct (c3 =? 44)%N; [|destruct (c3 =? 125)%N; [|discriminate]].
    + intros H. apply IHm in H. parse_lengths. lia.
    + intros [= _ <-]. parse_lengths. lia.
Qed.

(** With fuel above twice the length of the text, no call runs out. *)
Lemma parse_not_Exhausted (fuel : nat) :
  (forall s, 2 * length s + 1 <= fuel -> parse_value fuel s <> Exhausted)
  /\ (forall s acc, 2 * length s + 2 <= fuel -> parse_elements fuel s acc <> Exhausted)
  /\ (forall s acc, 2 * length s + 2 <= fuel -> parse_members fuel s acc <> Exhausted).
Proof.
  induction fuel as [|fuel (IHv & IHe & IHm)].
  { repeat split; intros; lia. }
  repeat split.
  - intros s Hfuel. rewrite parse_value_S.
    destruct (skip_ws s) as [|c r0] eqn:Hs; [discriminate|].
    destruct (c =? 123)%N; [|destruct (c =? 91)%N; [|destruct (c =? 34)%N]].
    + destruct (skip_ws r0) as [|d r1] eqn:Hr0; [discriminate|].
      destruct (d =? 125)%N; [discriminate|].
      apply IHm. parse_lengths. lia.
    + destruct (skip_ws r0) as [|d r1] eqn:Hr0; [discriminate|].
      destruct (d =? 93)%N; [discriminate|].
      apply IHe. parse_lengths. lia.
    + destruct (parse_chars r0) as [[t rest]|]; discriminate.
    + apply parse_literal_not_Exhausted.
  - intros s acc Hfuel. rewrite parse_elements_S.
    destruct (parse_value fuel s) as [v0 r0| |] eqn:Hv; [|discriminate|].
    + apply (proj1 (parse_reads fuel)) in Hv.
      destruct (skip_ws r0) as [|c r1] eqn:Hr0; [discriminate|].
      destruct (c =? 44)%N; [|destruct (c =? 93)%N; discriminate].
      apply IHe. parse_lengths. lia.
    + exfalso. eapply IHv; [|exact Hv]. lia.
  - intros s acc Hfuel. rewrite parse_members_S.
    destruct (skip_ws s) as [|c r0] eqn:Hs; [discriminate|].
    destruct (c =? 34)%N; [|discriminate].
    destruct (parse_chars r0) as [[key r1]|] eqn:Hc; [|discriminate].
    destruct (skip_ws r1) as [|c1 r2] eqn:Hr1; [discriminate|].
    destruct (c1 =? 58)%N; [|discriminate].
    destruct (parse_value fuel r2) as [v0 r3| |] eqn:Hv; [|discriminate|].
    + apply (proj1 (parse_reads fuel)) in Hv.
      destruct (skip_ws r3) as [|c3 r4] eqn:Hr3; [discriminate|].
      destruct (c3 =? 44)%N; [|destruct (c3 =? 125)%N; discriminate].
      apply IHm. parse_lengths. lia.
    + exfalso. eapply IHv; [|exact Hv]. parse_lengths. lia.
Qed.

(** JSON.parse never answers for want of fuel: [None] is a syntax error. *)
Lemma JSON_parse_fuel (text : jsstring) :
  parse_value (2 * length text + 2) text <> Exhausted.
Proof. apply parse_not_Exhausted. lia. Qed.

End Fuel.

(** ** The request body *)

Section Payload.

Variable h : Host.

Lemma JSON_stringify_message (text : jsstring) :
  JSON_stringify h (JObject [(key_message, JString text)])
  = Some (message_payload text).
Proof. reflexivity. Qed.

(** An input without a value property reads as undefined, and the member
    is left out. *)
Lemma JSON_stringify_no_message :
  JSON_stringify h (JObject [(key_message, JUndefined)]) = Some [123; 125].
Proof. reflexivity. Qed.

Lemma parse_value_message_payload (text : jsstring) (n : nat) :
  wf_string text ->
  parse_value (S (S (S n))) (message_payload text)
  = Parsed (JObject [(key_message, JString text)]) [].
Proof.
  intros Hwf. unfold message_payload, QuoteJSONString.
  cbn [parse_value parse_members skip_ws is_ws key_message quote_units
       quote_unit app N.eqb Pos.eqb orb andb N.ltb N.leb N.compare Pos.compare
       Pos.compare_cont is_high_surrogate is_low_surrogate parse_chars].
  rewrite <- app_assoc. cbn [app].
  rewrite parse_chars_quote_units by assumption.
  reflexivity.
Qed.

Lemma JSON_parse_message_payload (text : jsstring) :
  wf_string text ->
  JSON_parse (message_payload text)
  = Some (JObject [(key_message, JString text)]).
Proof.
  intros Hwf. unfold JSON_parse.
  replace (2 * length (message_payload text) + 2)%nat
    with (S (S (S (2 * length (message_payload text) - 1))))
    by (unfold message_payload; cbn [length]; lia).
  rewrite parse_value_message_payload by assumption. reflexivity.
Qed.

End Payload.

(** ** sendMessage in closed form *)

Section ClosedForm.

Variable h : Host.
Variable w : World.

Lemma to_innerText_error_text :
  to_innerText h (JString error_text) = Some error_text.
Proof. reflexivity. Qed.

(** No input element: [messageInput.value] throws, outside the try. *)
Lemma sendMessage_no_input :
  document w !! id_message = None ->
  sendMessage h w = Thrown TypeError w.
Proof.
  intros Hin. unfold sendMessage, bind, getElementById, get_value.
  rewrite Hin. reflexivity.
Qed.

(** Input and output elements present. *)
Lemma sendMessage_present (input output : Element) :
  document w !! id_message = Some input ->
  document w !! id_response = Some output ->
  let req := chat_request h (message_of input) in
  sendMessage h w =
    if settles (server h req)
    then Normal tt (show id_response
                      (default error_text (served_text h (server h req)))
                      (sent req w))
    else Suspended (sent req w).
Proof.
  intros Hin Hout req.
  unfold sendMessage, bind, try_catch, getElementById, get_value.
  rewrite Hin. cbv beta iota. rewrite Hin, Hout. cbv beta iota.
  fold (message_of input). fold (chat_request h (message_of input)).
  fold req. unfold fetch. fold (sent req w). cbv beta iota zeta.
  unfold served_text, settles.
  destruct (server h req) as [| |r]; try reflexivity.
  unfold Response_json.
  destruct (payload r) as [| |text]; try reflexivity.
  destruct (JSON_parse text) as [data|]; [|reflexivity].
  unfold get_property, response_field, set_innerText.
  destruct data as [| | | | | |properties]; try reflexivity.
  destruct (own_property key_response properties) as [v|]; [|reflexivity].
  change (default JUndefined (Some v)) with v.
  destruct (to_innerText h v); reflexivity.
Qed.

(** Input present, output missing: both assignments throw, the one in the
    catch block uncaught. *)
Lemma sendMessage_no_output (input : Element) :
  document w !! id_message = Some input ->
  document w !! id_response = None ->
  let req := chat_request h (message_of input) in
  sendMessage h w =
    if settles (server h req)
    then Thrown TypeError (sent req w)
    else Suspended (sent req w).
Proof.
  intros Hin Hout req.
  unfold sendMessage, bind, try_catch, getElementById, get_value.
  rewrite Hin. cbv beta iota. rewrite Hin, Hout. cbv beta iota.
  fold (message_of input). fold (chat_request h (message_of input)).
  fold req. unfold fetch. fold (sent req w). cbv beta iota zeta. unfold settles.
  destruct (server h req) as [| |r]; try reflexivity.
  unfold Response_json.
  destruct (payload r) as [| |text]; try reflexivity.
  destruct (JSON_parse text) as [data|]; [|reflexivity].
  unfold get_property, set_innerText.
  destruct data; reflexivity.
Qed.

End ClosedForm.

(** ** The example page *)

Lemma chat_page_message (text : option jsstring) (out : jsstring) :
  document (chat_page text out) !! id_message
  = Some {| value := text; innerText := [] |}.
Proof. apply lookup_insert_eq. Qed.

Lemma chat_page_response (text : option jsstring) (out : jsstring) :
  document (chat_page text out) !! id_response
  = Some {| value := None; innerText := out |}.
Proof.
  unfold chat_page; cbn [document].
  rewrite lookup_insert_ne by discriminate. apply lookup_insert_eq.
Qed.

(** ** The request *)

Lemma requests_sendMessage (h : Host) (w : World) (input : Element) :
  document w !! id_message = Some input ->
  requests (world_of (sendMessage h w))
  = requests w ++ [chat_request h (message_of input)].
Proof.
  intros Hin. destruct (document w !! id_response) as [output|] eqn:Hout.
  - rewrite (sendMessage_present h w input output Hin Hout).
    destruct (settles _); reflexivity.
  - rewrite (sendMessage_no_output h w input Hin Hout).
    destruct (settles _); reflexivity.
Qed.

(** C1.  With a text in the input field, one call of sendMessage makes
    exactly one fetch call: to /api/chat, method POST, the single header
    Content-Type: application/json, and a body that JSON.parse reads as the
    object with the one member message holding that text. *)
Theorem sendMessage_posts_message
    (h : Host) (w : World) (input : Element) (text : jsstring) :
  document w !! id_message = Some input ->
  value input = Some text ->
  wf_string text ->
  exists payload_text : jsstring,
    requests (world_of (sendMessage h w))
    = requests w ++ [{| url := api_chat;
                        method := POST;
                        headers := [(Content_Type, application_json)];
                        body := Some payload_text |}]
    /\ JSON_parse payload_text = Some (JObject [(key_message, JString text)]).
Proof.
  intros Hin Hval Hwf. exists (message_payload text). split.
  - rewrite (requests_sendMessage h w input Hin).
    unfold chat_request, message_of. rewrite Hval. reflexivity.
  - apply JSON_parse_message_payload, Hwf.
Qed.

Lemma sendMessage_posts_message_witness :
  exists payload_text : jsstring,
    requests (world_of (sendMessage (host_answering FetchRejected)
                                    (chat_page (Some [104; 105; 34; 55357]) [])))
    = [{| url := api_chat;
          method := POST;
          headers := [(Content_Type, application_json)];
          body := Some payload_text |}]
    /\ JSON_parse payload_text
       = Some (JObject [(key_message, JString [104; 105; 34; 55357])]).
Proof.
  apply (sendMessage_posts_message
           (host_answering FetchRejected)
           (chat_page (Some [104; 105; 34; 55357]) [])
           {| value := Some [104; 105; 34; 55357]; innerText := [] |}).
  - apply chat_page_message.
  - reflexivity.
  - repeat constructor.
Defined.

(** C4.  With the empty string in the input field the fetch call is made all
    the same, its body being the text of the object whose member message is
    the empty string. *)
Theorem sendMessage_posts_empty_message
    (h : Host) (w : World) (input : Element) :
  document w !! id_message = Some input ->
  value input = Some [] ->
  requests (world_of (sendMessage h w))
  = requests w ++ [{| url := api_chat;
                      method := POST;
                      headers := [(Content_Type, application_json)];
                      body := Some ([123; 34] ++ key_message ++ [34; 58; 34; 34; 125]) |}]
  /\ JSON_parse ([123; 34] ++ key_message ++ [34; 58; 34; 34; 125])
     = Some (JObject [(key_message, JString [])]).
Proof.
  intros Hin Hval. split.
  - rewrite (requests_sendMessage h w input Hin).
    unfold chat_request, message_of. rewrite Hval. reflexivity.
  - reflexivity.
Qed.

Lemma sendMessage_posts_empty_message_witness :
  requests (world_of (sendMessage (host_answering FetchPending)
                                  (chat_page (Some []) [])))
  = [{| url := api_chat;
        method := POST;
        headers := [(Content_Type, application_json)];
        body := Some ([123; 34] ++ key_message ++ [34; 58; 34; 34; 125]) |}]
  /\ JSON_parse ([123; 34] ++ key_message ++ [34; 58; 34; 34; 125])
     = Some (JObject [(key_message, JString [])]).
Proof.
  apply (sendMessage_posts_empty_message
           (host_answering FetchPending) (chat_page (Some []) [])
           {| value := Some []; innerText := [] |}).
  - apply chat_page_message.
  - reflexivity.
Defined.

(** C10.  Without an element of id message, sendMessage throws a TypeError
    before the try block: the world is left as it was, so no fetch call is
    made and the output element keeps its text. *)
Theorem sendMessage_without_input (h : Host) (w : World) :
  document w !! id_message = None ->
  sendMessage h w = Thrown TypeError w.
Proof. apply sendMessage_no_input. Qed.

Lemma sendMessage_without_input_witness :
  sendMessage (host_answering (reply 200 lit_null)) (output_only_page [111; 107])
  = Thrown TypeError (output_only_page [111; 107]).
Proof.
  apply (sendMessage_without_input
           (host_answering (reply 200 lit_null)) (output_only_page [111; 107])).
  apply lookup_singleton_ne. discriminate.
Defined.

(** ** The output element *)

Section Show.

Variables (id : jsstring) (text : jsstring) (w : World).

Lemma document_show_eq (el : Element) :
  document w !! id = Some el ->
  document (show id text w) !! id
  = Some {| value := value el; innerText := text |}.
Proof.
  intros Hel. unfold show; cbn [document]. rewrite lookup_alter_eq, Hel.
  reflexivity.
Qed.

Lemma document_show_ne (id' : jsstring) :
  id' <> id -> document (show id text w) !! id' = document w !! id'.
Proof.
  intros Hne. unfold show; cbn [document].
  apply lookup_alter_ne. congruence.
Qed.

Lemma document_show_value (id' : jsstring) :
  value <$> document (show id text w) !! id' = value <$> document w !! id'.
Proof.
  destruct (decide (id' = id)) as [->|Hne].
  - unfold show; cbn [document]. rewrite lookup_alter_eq.
    destruct (document w !! id); reflexivity.
  - rewrite document_show_ne by assumption. reflexivity.
Qed.

Lemma document_show_show (text' : jsstring) :
  document (show id text (show id text' w)) = document (show id text w).
Proof.
  unfold show; cbn [document]. rewrite alter_alter_eq.
  apply alter_ext. reflexivity.
Qed.

End Show.

(** What sendMessage leaves in the output element, both elements present and
    both promises settled. *)
Lemma sendMessage_settled
    (h : Host) (w : World) (input output : Element) :
  document w !! id_message = Some input ->
  document w !! id_response = Some output ->
  settles (server h (chat_request h (message_of input))) = true ->
  exists w' : World,
    sendMessage h w = Normal tt w'
    /\ document w' !! id_response
       = Some {| value := value output;
                 innerText :=
                   default error_text
                     (served_text h (server h (chat_request h (message_of input)))) |}.
Proof.
  intros Hin Hout Hsettles.
  rewrite (sendMessage_present h w input output Hin Hout). cbv zeta.
  rewrite Hsettles. eexists. split; [reflexivity|].
  apply document_show_eq. exact Hout.
Qed.

(** C2.  When the reply's body is JSON text for an object whose response
    member is a string, sendMessage completes and the output element's text
    is that string. *)
Theorem sendMessage_shows_response
    (h : Host) (w : World) (input output : Element)
    (r : Response) (text : jsstring)
    (properties : list (jsstring * JSValue)) (s : jsstring) :
  document w !! id_message = Some input ->
  document w !! id_response = Some output ->
  server h (chat_request h (message_of input)) = FetchResponse r ->
  payload r = BodyText text ->
  JSON_parse text = Some (JObject properties) ->
  own_property key_response properties = Some (JString s) ->
  exists w' : World,
    sendMessage h w = Normal tt w'
    /\ document w' !! id_response
       = Some {| value := value output; innerText := s |}.
Proof.
  intros Hin Hout Hreply Hbody Hparse Hfield.
  destruct (sendMessage_settled h w input output Hin Hout) as (w' & Hrun & Hdoc).
  { rewrite Hreply. cbn [settles]. rewrite Hbody. reflexivity. }
  exists w'. split; [exact Hrun|]. rewrite Hdoc.
  rewrite Hreply. cbn [served_text]. rewrite Hbody, Hparse.
  cbn [response_field]. rewrite Hfield. reflexivity.
Qed.

Lemma sendMessage_shows_response_witness :
  exists w' : World,
    sendMessage (host_answering (reply 200 hello_reply))
                (chat_page (Some [104; 105]) []) = Normal tt w'
    /\ document w' !! id_response
       = Some {| value := None; innerText := [104; 101; 108; 108; 111] |}.
Proof.
  apply (sendMessage_shows_response
           (host_answering (reply 200 hello_reply))
           (chat_page (Some [104; 105]) [])
           {| value := Some [104; 105]; innerText := [] |}
           {| value := None; innerText := [] |}
           {| status := 200; payload := BodyText hello_reply |}
           hello_reply
           [(key_response, JString [104; 101; 108; 108; 111])]
           [104; 101; 108; 108; 111]).
  - apply chat_page_message.
  - apply chat_page_response.
  - reflexivity.
  - reflexivity.
  - reflexivity.
  - reflexivity.
Defined.

(** C3.  When the network call is rejected, the body cannot be read, or the
    body is not JSON text, sendMessage completes and the output element's
    text is the one fixed error string, the same for each kind of failure. *)
Theorem sendMessage_shows_error
    (h : Host) (w : World) (input output : Element) :
  document w !! id_message = Some input ->
  document w !! id_response = Some output ->
  request_or_parse_failure (server h (chat_request h (message_of input))) = true ->
  exists w' : World,
    sendMessage h w = Normal tt w'
    /\ document w' !! id_response
       = Some {| value := value output; innerText := error_text |}.
Proof.
  intros Hin Hout Hfail.
  destruct (sendMessage_settled h w input output Hin Hout) as (w' & Hrun & Hdoc).
  { destruct (server h _) as [| |r]; [discriminate|reflexivity|].
    cbn [request_or_parse_failure settles] in *.
    destruct (payload r); [discriminate|reflexivity|reflexivity]. }
  exists w'. split; [exact Hrun|]. rewrite Hdoc. do 2 f_equal.
  destruct (server h _) as [| |r]; [discriminate|reflexivity|].
  cbn [request_or_parse_failure served_text] in *.
  destruct (payload r) as [| |text]; [discriminate|reflexivity|].
  destruct (JSON_parse text); [discriminate|reflexivity].
Qed.

Lemma sendMessage_shows_error_witness :
  (exists w' : World,
     sendMessage (host_answering FetchRejected) (chat_page (Some [104; 105]) [])
     = Normal tt w'
     /\ document w' !! id_response
        = Some {| value := None; innerText := error_text |})
  /\ (exists w' : World,
        sendMessage (host_answering (reply 502 [60; 104; 116; 109; 108; 62]))
                    (chat_page (Some [104; 105]) [])
        = Normal tt w'
        /\ document w' !! id_response
           = Some {| value := None; innerText := error_text |}).
Proof.
  split.
  - apply (sendMessage_shows_error
             (host_answering FetchRejected) (chat_page (Some [104; 105]) [])
             {| value := Some [104; 105]; innerText := [] |}
             {| value := None; innerText := [] |}).
    + apply chat_page_message.
    + apply chat_page_response.
    + reflexivity.
  - apply (sendMessage_shows_error
             (host_answering (reply 502 [60; 104; 116; 109; 108; 62]))
             (chat_page (Some [104; 105]) [])
             {| value := Some [104; 105]; innerText := [] |}
             {| value := None; innerText := [] |}).
    + apply chat_page_message.
    + apply chat_page_response.
    + reflexivity.
Defined.

(** ** The status code *)

Lemma chat_request_with_status (st : N) (h : Host) (input : Element) :
  chat_request (host_with_status st h) (message_of input)
  = chat_request h (message_of input).
Proof. unfold message_of. destruct (value input); reflexivity. Qed.

Lemma settles_with_status (st : N) (o : FetchOutcome) :
  settles (with_status st o) = settles o.
Proof. destruct o; reflexivity. Qed.

Lemma served_text_with_status (st : N) (h : Host) (o : FetchOutcome) :
  served_text (host_with_status st h) (with_status st o) = served_text h o.
Proof. destruct o; reflexivity. Qed.

(** No step of sendMessage reads the status: replacing it in every response
    changes nothing. *)
Lemma sendMessage_with_status (st : N) (h : Host) (w : World) :
  sendMessage (host_with_status st h) w = sendMessage h w.
Proof.
  destruct (document w !! id_message) as [input|] eqn:Hin.
  - destruct (document w !! id_response) as [output|] eqn:Hout.
    + rewrite (sendMessage_present _ w input output Hin Hout).
      rewrite (sendMessage_present h w input output Hin Hout). cbv zeta.
      rewrite chat_request_with_status. cbn [server host_with_status].
      rewrite settles_with_status, served_text_with_status. reflexivity.
    + rewrite (sendMessage_no_output _ w input Hin Hout).
      rewrite (sendMessage_no_output h w input Hin Hout). cbv zeta.
      rewrite chat_request_with_status. cbn [server host_with_status].
      rewrite settles_with_status. reflexivity.
  - rewrite !sendMessage_no_input by assumption. reflexivity.
Qed.

(** C5, as the code has it.  Whatever the status of the reply: when the body
    is JSON text for a value that has properties (any value but null) and
    the conversion of its response member to text does not throw, sendMessage
    completes and the output element's text is that text; and replacing the
    status of every response leaves the result of sendMessage as it is. *)
Theorem sendMessage_ignores_status
    (h : Host) (w : World) (input output : Element)
    (r : Response) (text : jsstring) (data v : JSValue) (t : jsstring) :
  document w !! id_message = Some input ->
  document w !! id_response = Some output ->
  server h (chat_request h (message_of input)) = FetchResponse r ->
  payload r = BodyText text ->
  JSON_parse text = Some data ->
  response_field data = Some v ->
  to_innerText h v = Some t ->
  (exists w' : World,
     sendMessage h w = Normal tt w'
     /\ document w' !! id_response
        = Some {| value := value output; innerText := t |})
  /\ (forall st : N, sendMessage (host_with_status st h) w = sendMessage h w).
Proof.
  intros Hin Hout Hreply Hbody Hparse Hfield Htext. split.
  - destruct (sendMessage_settled h w input output Hin Hout) as (w' & Hrun & Hdoc).
    { rewrite Hreply. cbn [settles]. rewrite Hbody. reflexivity. }
    exists w'. split; [exact Hrun|]. rewrite Hdoc, Hreply.
    cbn [served_text]. rewrite Hbody, Hparse, Hfield, Htext. reflexivity.
  - intros st. apply sendMessage_with_status.
Qed.

Lemma sendMessage_ignores_status_witness :
  (exists w' : World,
     sendMessage (host_answering (reply 500 hello_reply))
                 (chat_page (Some [104; 105]) []) = Normal tt w'
     /\ document w' !! id_response
        = Some {| value := None; innerText := [104; 101; 108; 108; 111] |})
  /\ (forall st : N,
        sendMessage (host_with_status st (host_answering (reply 500 hello_reply)))
                    (chat_page (Some [104; 105]) [])
        = sendMessage (host_answering (reply 500 hello_reply))
                      (chat_page (Some [104; 105]) [])).
Proof.
  apply (sendMessage_ignores_status
           (host_answering (reply 500 hello_reply))
           (chat_page (Some [104; 105]) [])
           {| value := Some [104; 105]; innerText := [] |}
           {| value := None; innerText := [] |}
           {| status := 500; payload := BodyText hello_reply |}
           hello_reply
           (JObject [(key_response, JString [104; 101; 108; 108; 111])])
           (JString [104; 101; 108; 108; 111])
           [104; 101; 108; 108; 111]).
  - apply chat_page_message.
  - apply chat_page_response.
  - reflexivity.
  - reflexivity.
  - reflexivity.
  - reflexivity.
  - reflexivity.
Defined.

(** C5 as stated fails: the body null is JSON text, the status is 200, and
    yet reading the response member of null throws, so the catch block runs
    and the output element shows the error string. *)
Lemma null_body_shows_error :
  JSON_parse lit_null = Some JNull
  /\ exists w' : World,
       sendMessage (host_answering (reply 200 lit_null))
                   (chat_page (Some [104; 105]) []) = Normal tt w'
       /\ shown w' = Some error_text.
Proof.
  split; [reflexivity|].
  destruct (sendMessage_settled
              (host_answering (reply 200 lit_null))
              (chat_page (Some [104; 105]) []) _ _
              (chat_page_message _ _) (chat_page_response _ _))
    as (w' & Hrun & Hdoc); [reflexivity|].
  exists w'. split; [exact Hrun|].
  unfold shown. rewrite Hdoc. reflexivity.
Qed.

(** ** A reply without a response member *)

(** C6, as the code has it.  When the body is JSON text for an object with no
    response member, the value read is undefined, which the innerText setter
    turns into text: the output element shows the nine letters undefined. *)
Theorem sendMessage_shows_undefined
    (h : Host) (w : World) (input output : Element)
    (r : Response) (text : jsstring) (properties : list (jsstring * JSValue)) :
  document w !! id_message = Some input ->
  document w !! id_response = Some output ->
  server h (chat_request h (message_of input)) = FetchResponse r ->
  payload r = BodyText text ->
  JSON_parse text = Some (JObject properties) ->
  own_property key_response properties = None ->
  exists w' : World,
    sendMessage h w = Normal tt w'
    /\ document w' !! id_response
       = Some {| value := value output; innerText := lit_undefined |}.
Proof.
  intros Hin Hout Hreply Hbody Hparse Hfield.
  destruct (sendMessage_settled h w input output Hin Hout) as (w' & Hrun & Hdoc).
  { rewrite Hreply. cbn [settles]. rewrite Hbody. reflexivity. }
  exists w'. split; [exact Hrun|]. rewrite Hdoc, Hreply.
  cbn [served_text]. rewrite Hbody, Hparse. cbn [response_field].
  rewrite Hfield. reflexivity.
Qed.

Lemma sendMessage_shows_undefined_witness :
  exists w' : World,
    sendMessage (host_answering (reply 200 [123; 125]))
                (chat_page (Some [104; 105]) []) = Normal tt w'
    /\ document w' !! id_response
       = Some {| value := None; innerText := lit_undefined |}.
Proof.
  apply (sendMessage_shows_undefined
           (host_answering (reply 200 [123; 125]))
           (chat_page (Some [104; 105]) [])
           {| value := Some [104; 105]; innerText := [] |}
           {| value := None; innerText := [] |}
           {| status := 200; payload := BodyText [123; 125] |}
           [123; 125] []).
  - apply chat_page_message.
  - apply chat_page_response.
  - reflexivity.
  - reflexivity.
  - reflexivity.
  - reflexivity.
Defined.

(** C6 as stated fails: for the body of the empty object the output element
    does not end up empty. *)
Lemma empty_object_body_shows_undefined :
  JSON_parse [123; 125] = Some (JObject [])
  /\ own_property key_response [] = None
  /\ exists w' : World,
       sendMessage (host_answering (reply 200 [123; 125]))
                   (chat_page (Some [104; 105]) []) = Normal tt w'
       /\ shown w' = Some lit_undefined
       /\ shown w' <> Some [].
Proof.
  split; [reflexivity|]. split; [reflexivity|].
  destruct (sendMessage_settled
              (host_answering (reply 200 [123; 125]))
              (chat_page (Some [104; 105]) []) _ _
              (chat_page_message _ _) (chat_page_response _ _))
    as (w' & Hrun & Hdoc); [reflexivity|].
  exists w'. split; [exact Hrun|].
  unfold shown. rewrite Hdoc. split; [reflexivity|discriminate].
Qed.

(** ** Frame *)

(** C7.  Whatever the host and the page, sendMessage leaves the console as it
    was, leaves every element other than the output element as it was (the
    input field among them), changes nothing of the output element but its
    text, and makes at most one fetch call. *)
Theorem sendMessage_frame (h : Host) (w : World) :
  console (world_of (sendMessage h w)) = console w
  /\ (forall id : jsstring,
        id <> id_response ->
        document (world_of (sendMessage h w)) !! id = document w !! id)
  /\ value <$> document (world_of (sendMessage h w)) !! id_response
     = value <$> document w !! id_response
  /\ (requests (world_of (sendMessage h w)) = requests w
      \/ exists req : Request,
           requests (world_of (sendMessage h w)) = requests w ++ [req]).
Proof.
  destruct (document w !! id_message) as [input|] eqn:Hin.
  - destruct (document w !! id_response) as [output|] eqn:Hout.
    + rewrite (sendMessage_present h w input output Hin Hout). cbv zeta.
      destruct (settles _); cbn [world_of].
      * split; [reflexivity|]. split; [|split].
        -- intros id Hne. rewrite document_show_ne by exact Hne. reflexivity.
        -- rewrite document_show_value. cbn [sent document].
           rewrite Hout. reflexivity.
        -- right. eexists. reflexivity.
      * split; [reflexivity|]. split; [reflexivity|].
        split; [rewrite <- Hout; reflexivity|]. right. eexists. reflexivity.
    + rewrite (sendMessage_no_output h w input Hin Hout). cbv zeta.
      destruct (settles _); cbn [world_of];
        (split; [reflexivity|]; split; [reflexivity|];
         split; [rewrite <- Hout; reflexivity|]; right; eexists; reflexivity).
  - rewrite (sendMessage_no_input h w Hin). cbn [world_of].
    split; [reflexivity|]. split; [reflexivity|]. split; [reflexivity|].
    left. reflexivity.
Qed.

(** ** Repetition *)

Lemma shown_show (text : jsstring) (w : World) (output : Element) :
  document w !! id_response = Some output ->
  shown (show id_response text w) = Some text.
Proof.
  intros Hout. unfold shown.
  rewrite (document_show_eq id_response text w output Hout). reflexivity.
Qed.

(** C8.  A second call on the page the first call left, with the same host,
    leaves the page as the first call left it: the same elements with the
    same text shown, and the same console.  The text shown also does not
    depend on anything else in the world the call starts from: from another
    page with the same input value and an output element, once the promises
    settle, the same text is shown. *)
Theorem sendMessage_twice (h : Host) (w : World) :
  (document (world_of (sendMessage h (world_of (sendMessage h w))))
   = document (world_of (sendMessage h w))
   /\ console (world_of (sendMessage h (world_of (sendMessage h w))))
      = console (world_of (sendMessage h w))
   /\ shown (world_of (sendMessage h (world_of (sendMessage h w))))
      = shown (world_of (sendMessage h w)))
  /\ (forall (w2 : World) (input input2 output output2 : Element),
        document w !! id_message = Some input ->
        document w2 !! id_message = Some input2 ->
        value input = value input2 ->
        document w !! id_response = Some output ->
        document w2 !! id_response = Some output2 ->
        settles (server h (chat_request h (message_of input))) = true ->
        shown (world_of (sendMessage h w)) = shown (world_of (sendMessage h w2))).
Proof.
  split.
  - assert (Hdoc : document (world_of (sendMessage h (world_of (sendMessage h w))))
                   = document (world_of (sendMessage h w))).
    { destruct (document w !! id_message) as [input|] eqn:Hin.
      - destruct (document w !! id_response) as [output|] eqn:Hout.
        + rewrite (sendMessage_present h w input output Hin Hout). cbv zeta.
          destruct (settles _) eqn:Hsettles; cbn [world_of].
          * erewrite sendMessage_present; cycle 1.
            { rewrite document_show_ne by discriminate. exact Hin. }
            { apply document_show_eq. exact Hout. }
            cbv zeta. rewrite Hsettles. cbn [world_of].
            apply document_show_show.
          * rewrite (sendMessage_present h (sent _ w) input output Hin Hout).
            cbv zeta. rewrite Hsettles. reflexivity.
        + rewrite (sendMessage_no_output h w input Hin Hout). cbv zeta.
          destruct (settles _) eqn:Hsettles; cbn [world_of];
            rewrite (sendMessage_no_output h (sent _ w) input Hin Hout);
            cbv zeta; rewrite Hsettles; reflexivity.
      - rewrite (sendMessage_no_input h w Hin). cbn [world_of].
        rewrite (sendMessage_no_input h w Hin). reflexivity. }
    split; [exact Hdoc|]. split.
    + destruct (sendMessage_frame h (world_of (sendMessage h w))) as [Hc _].
      exact Hc.
    + unfold shown. rewrite Hdoc. reflexivity.
  - intros w2 input input2 output output2 Hin Hin2 Hval Hout Hout2 Hsettles.
    assert (Hmsg : message_of input2 = message_of input)
      by (unfold message_of; rewrite Hval; reflexivity).
    rewrite (sendMessage_present h w input output Hin Hout).
    rewrite (sendMessage_present h w2 input2 output2 Hin2 Hout2). cbv zeta.
    rewrite Hmsg, Hsettles. cbn [world_of].
    rewrite (shown_show _ (sent _ w) output Hout).
    rewrite (shown_show _ (sent _ w2) output2 Hout2). reflexivity.
Qed.

Lemma sendMessage_twice_witness :
  shown (world_of (sendMessage (host_answering (reply 200 hello_reply))
                               (chat_page (Some [104; 105]) [])))
  = shown (world_of (sendMessage (host_answering (reply 200 hello_reply))
                                 (chat_page (Some [104; 105]) [111; 108; 100]))).
Proof.
  destruct (sendMessage_twice (host_answering (reply 200 hello_reply))
                              (chat_page (Some [104; 105]) [])) as [_ Hsame].
  apply (Hsame (chat_page (Some [104; 105]) [111; 108; 100])
               {| value := Some [104; 105]; innerText := [] |}
               {| value := Some [104; 105]; innerText := [] |}
               {| value := None; innerText := [] |}
               {| value := None; innerText := [111; 108; 100] |}).
  - apply chat_page_message.
  - apply chat_page_message.
  - reflexivity.
  - apply chat_page_response.
  - apply chat_page_response.
  - reflexivity.
Defined.

(** ** Outcomes *)

(** C9, as the code has it.  With both elements in the page, sendMessage
    never ends in an uncaught exception.  When the awaited promises settle it
    completes, and the output element's text is either the text made from
    the reply's response member or the fixed error string.  When one of them
    never settles, sendMessage stays suspended and the page is as it was. *)
Theorem sendMessage_outcomes
    (h : Host) (w : World) (input output : Element) :
  document w !! id_message = Some input ->
  document w !! id_response = Some output ->
  (forall (e : Exception) (w' : World), sendMessage h w <> Thrown e w')
  /\ (settles (server h (chat_request h (message_of input))) = true ->
      exists (w' : World) (t : jsstring),
        sendMessage h w = Normal tt w'
        /\ document w' !! id_response
           = Some {| value := value output; innerText := t |}
        /\ (served_text h (server h (chat_request h (message_of input))) = Some t
            \/ t = error_text))
  /\ (settles (server h (chat_request h (message_of input))) = false ->
      exists w' : World,
        sendMessage h w = Suspended w' /\ document w' = document w).
Proof.
  intros Hin Hout. split; [|split].
  - intros e w'. rewrite (sendMessage_present h w input output Hin Hout).
    cbv zeta. destruct (settles _); discriminate.
  - intros Hsettles.
    destruct (sendMessage_settled h w input output Hin Hout Hsettles)
      as (w' & Hrun & Hdoc).
    exists w'. eexists. split; [exact Hrun|]. split; [exact Hdoc|].
    destruct (served_text h _); [left|right]; reflexivity.
  - intros Hsettles. rewrite (sendMessage_present h w input output Hin Hout).
    cbv zeta. rewrite Hsettles. eexists. split; reflexivity.
Qed.

Lemma sendMessage_outcomes_witness :
  exists (w' : World) (t : jsstring),
    sendMessage (host_answering (reply 200 hello_reply))
                (chat_page (Some [104; 105]) []) = Normal tt w'
    /\ document w' !! id_response = Some {| value := None; innerText := t |}
    /\ (served_text (host_answering (reply 200 hello_reply))
                    (reply 200 hello_reply) = Some t
        \/ t = error_text).
Proof.
  destruct (sendMessage_outcomes
              (host_answering (reply 200 hello_reply))
              (chat_page (Some [104; 105]) [])
              {| value := Some [104; 105]; innerText := [] |}
              {| value := None; innerText := [] |}
              (chat_page_message _ _) (chat_page_response _ _))
    as (_ & Hsettled & _).
  apply Hsettled. reflexivity.
Defined.

(** C9 as stated fails: both elements are in the page, the fetch promise
    never settles, and sendMessage does not complete; the output element
    keeps the text it had, which is neither a reply's text nor the error
    string. *)
Lemma pending_fetch_never_completes :
  is_Some (document (chat_page (Some [104; 105]) [111; 108; 100]) !! id_message)
  /\ is_Some (document (chat_page (Some [104; 105]) [111; 108; 100]) !! id_response)
  /\ exists w' : World,
       sendMessage (host_answering FetchPending)
                   (chat_page (Some [104; 105]) [111; 108; 100]) = Suspended w'
       /\ shown w' = Some [111; 108; 100]
       /\ shown w' <> Some error_text.
Proof.
  split; [rewrite chat_page_message; eauto|].
  split; [rewrite chat_page_response; eauto|].
  rewrite (sendMessage_present _ _ _ _
             (chat_page_message _ _) (chat_page_response _ _)).
  cbv zeta. cbn [settles host_answering server].
  eexists. split; [reflexivity|].
  unfold shown. cbn [sent document].
  rewrite chat_page_response. split; [reflexivity|discriminate].
Qed.

(** * Further behaviour of sendMessage *)

(** ** Replies of other shapes *)

(** Both elements present and a reply whose body is JSON text: what the
    output element shows, from the parsed value. *)
Lemma sendMessage_reply
    (h : Host) (w : World) (input output : Element)
    (r : Response) (text : jsstring) (data : JSValue) :
  document w !! id_message = Some input ->
  document w !! id_response = Some output ->
  server h (chat_request h (message_of input)) = FetchResponse r ->
  payload r = BodyText text ->
  JSON_parse text = Some data ->
  exists w' : World,
    sendMessage h w = Normal tt w'
    /\ document w' !! id_response
       = Some {| value := value output;
                 innerText :=
                   default error_text
                     (match response_field data with
                      | Some v => to_innerText h v
                      | None => None
                      end) |}.
Proof.
  intros Hin Hout Hreply Hbody Hparse.
  destruct (sendMessage_settled h w input output Hin Hout) as (w' & Hrun & Hdoc).
  { rewrite Hreply. cbn [settles]. rewrite Hbody. reflexivity. }
  exists w'. split; [exact Hrun|]. rewrite Hdoc, Hreply.
  cbn [served_text]. rewrite Hbody, Hparse. reflexivity.
Qed.

(** X3.  A reply whose body is JSON text for null: reading its response
    member throws, and the output element shows the error string. *)
Theorem sendMessage_null_reply
    (h : Host) (w : World) (input output : Element)
    (r : Response) (text : jsstring) :
  document w !! id_message = Some input ->
  document w !! id_response = Some output ->
  server h (chat_request h (message_of input)) = FetchResponse r ->
  payload r = BodyText text ->
  JSON_parse text = Some JNull ->
  exists w' : World,
    sendMessage h w = Normal tt w'
    /\ document w' !! id_response
       = Some {| value := value output; innerText := error_text |}.
Proof.
  intros Hin Hout Hreply Hbody Hparse.
  exact (sendMessage_reply h w input output r text JNull
           Hin Hout Hreply Hbody Hparse).
Qed.

Lemma sendMessage_null_reply_witness :
  exists w' : World,
    sendMessage (host_answering (reply 200 (js " null ")))
                (chat_page (Some [104; 105]) []) = Normal tt w'
    /\ document w' !! id_response
       = Some {| value := None; innerText := error_text |}.
Proof.
  apply (sendMessage_null_reply
           (host_answering (reply 200 (js " null ")))
           (chat_page (Some [104; 105]) [])
           {| value := Some [104; 105]; innerText := [] |}
           {| value := None; innerText := [] |}
           {| status := 200; payload := BodyText (js " null ") |}
           (js " null ")).
  - apply chat_page_message.
  - apply chat_page_response.
  - reflexivity.
  - reflexivity.
  - reflexivity.
Defined.

(** X4.  A reply object whose response member is null: the setter takes null
    for the empty string, and the output element is emptied. *)
Theorem sendMessage_null_response
    (h : Host) (w : World) (input output : Element)
    (r : Response) (text : jsstring) (properties : list (jsstring * JSValue)) :
  document w !! id_message = Some input ->
  document w !! id_response = Some output ->
  server h (chat_request h (message_of input)) = FetchResponse r ->
  payload r = BodyText text ->
  JSON_parse text = Some (JObject properties) ->
  own_property key_response properties = Some JNull ->
  exists w' : World,
    sendMessage h w = Normal tt w'
    /\ document w' !! id_response
       = Some {| value := value output; innerText := [] |}.
Proof.
  intros Hin Hout Hreply Hbody Hparse Hfield.
  destruct (sendMessage_reply h w input output r text _
              Hin Hout Hreply Hbody Hparse) as (w' & Hrun & Hdoc).
  exists w'. split; [exact Hrun|]. rewrite Hdoc.
  cbn [response_field]. rewrite Hfield. reflexivity.
Qed.

Lemma sendMessage_null_response_witness :
  exists w' : World,
    sendMessage (host_answering
                   (reply 200 ([123; 34] ++ key_response ++ [34; 58] ++ lit_null ++ [125])))
                (chat_page (Some [104; 105]) [111; 108; 100]) = Normal tt w'
    /\ document w' !! id_response = Some {| value := None; innerText := [] |}.
Proof.
  apply (sendMessage_null_response
           (host_answering
              (reply 200 ([123; 34] ++ key_response ++ [34; 58] ++ lit_null ++ [125])))
           (chat_page (Some [104; 105]) [111; 108; 100])
           {| value := Some [104; 105]; innerText := [] |}
           {| value := None; innerText := [111; 108; 100] |}
           {| status := 200;
              payload := BodyText ([123; 34] ++ key_response ++ [34; 58]
                                   ++ lit_null ++ [125]) |}
           ([123; 34] ++ key_response ++ [34; 58] ++ lit_null ++ [125])
           [(key_response, JNull)]).
  - apply chat_page_message.
  - apply chat_page_response.
  - reflexivity.
  - reflexivity.
  - reflexivity.
  - reflexivity.
Defined.

(** X5.  A reply whose body is JSON text for a boolean, a number, a string
    or an array: such a value has no response member, and the output element
    shows the text undefined. *)
Theorem sendMessage_non_object_reply
    (h : Host) (w : World) (input output : Element)
    (r : Response) (text : jsstring) (data : JSValue) :
  document w !! id_message = Some input ->
  document w !! id_response = Some output ->
  server h (chat_request h (message_of input)) = FetchResponse r ->
  payload r = BodyText text ->
  JSON_parse text = Some data ->
  non_object data = true ->
  exists w' : World,
    sendMessage h w = Normal tt w'
    /\ document w' !! id_response
       = Some {| value := value output; innerText := lit_undefined |}.
Proof.
  intros Hin Hout Hreply Hbody Hparse Hshape.
  destruct (sendMessage_reply h w input output r text data
              Hin Hout Hreply Hbody Hparse) as (w' & Hrun & Hdoc).
  exists w'. split; [exact Hrun|]. rewrite Hdoc.
  destruct data; try discriminate Hshape; reflexivity.
Qed.

Lemma sendMessage_non_object_reply_witness :
  exists w' : World,
    sendMessage (host_answering (reply 200 (js "[1, 2]")))
                (chat_page (Some [104; 105]) []) = Normal tt w'
    /\ document w' !! id_response
       = Some {| value := None; innerText := lit_undefined |}.
Proof.
  apply (sendMessage_non_object_reply
           (host_answering (reply 200 (js "[1, 2]")))
           (chat_page (Some [104; 105]) [])
           {| value := Some [104; 105]; innerText := [] |}
           {| value := None; innerText := [] |}
           {| status := 200; payload := BodyText (js "[1, 2]") |}
           (js "[1, 2]")
           (JArray [JNumber (js "1"); JNumber (js "2")])).
  - apply chat_page_message.
  - apply chat_page_response.
  - reflexivity.
  - reflexivity.
  - reflexivity.
  - reflexivity.
Defined.

(** X6.  A reply object whose response member is an object: the output
    element shows [object Object], unless that object has a member named
    toString, in which case the conversion throws and the error string is
    shown. *)
Theorem sendMessage_object_response
    (h : Host) (w : World) (input output : Element)
    (r : Response) (text : jsstring)
    (properties members : list (jsstring * JSValue)) :
  document w !! id_message = Some input ->
  document w !! id_response = Some output ->
  server h (chat_request h (message_of input)) = FetchResponse r ->
  payload r = BodyText text ->
  JSON_parse text = Some (JObject properties) ->
  own_property key_response properties = Some (JObject members) ->
  exists w' : World,
    sendMessage h w = Normal tt w'
    /\ document w' !! id_response
       = Some {| value := value output;
                 innerText :=
                   match own_property key_toString members with
                   | Some _ => error_text
                   | None => lit_object
                   end |}.
Proof.
  intros Hin Hout Hreply Hbody Hparse Hfield.
  destruct (sendMessage_reply h w input output r text _
              Hin Hout Hreply Hbody Hparse) as (w' & Hrun & Hdoc).
  exists w'. split; [exact Hrun|]. rewrite Hdoc.
  cbn [response_field]. rewrite Hfield.
  change (default JUndefined (Some (JObject members))) with (JObject members).
  cbn [to_innerText ToString].
  destruct (own_property key_toString members); reflexivity.
Qed.

Lemma sendMessage_object_response_witness :
  exists w' : World,
    sendMessage (host_answering
                   (reply 200 ([123; 34] ++ key_response ++ [34; 58; 123; 34]
                               ++ key_toString ++ [34; 58; 49; 125; 125])))
                (chat_page (Some [104; 105]) []) = Normal tt w'
    /\ document w' !! id_response
       = Some {| value := None; innerText := error_text |}.
Proof.
  apply (sendMessage_object_response
           (host_answering
              (reply 200 ([123; 34] ++ key_response ++ [34; 58; 123; 34]
                          ++ key_toString ++ [34; 58; 49; 125; 125])))
           (chat_page (Some [104; 105]) [])
           {| value := Some [104; 105]; innerText := [] |}
           {| value := None; innerText := [] |}
           {| status := 200;
              payload := BodyText ([123; 34] ++ key_response ++ [34; 58; 123; 34]
                                   ++ key_toString ++ [34; 58; 49; 125; 125]) |}
           ([123; 34] ++ key_response ++ [34; 58; 123; 34]
            ++ key_toString ++ [34; 58; 49; 125; 125])
           [(key_response, JObject [(key_toString, JNumber [49])])]
           [(key_toString, JNumber [49])]).
  - apply chat_page_message.
  - apply chat_page_response.
  - reflexivity.
  - reflexivity.
  - reflexivity.
  - reflexivity.
Defined.

Lemma ToString_strings (number : jsstring -> jsstring) (texts : list jsstring) :
  ToString number (JArray (List.map JString texts)) = Some (join_comma texts).
Proof.
  cbn [ToString].
  match goal with
  | |- match ?parts _ with _ => _ end = _ =>
      assert (Hparts : forall l, parts (List.map JString l) = Some l)
  end.
  { induction l as [|t l IH]; [reflexivity|].
    cbn [List.map]. rewrite IH. reflexivity. }
  rewrite Hparts. reflexivity.
Qed.

(** X7.  A reply object whose response member is an array of strings: the
    output element shows the strings with a comma between them. *)
Theorem sendMessage_strings_response
    (h : Host) (w : World) (input output : Element)
    (r : Response) (text : jsstring)
    (properties : list (jsstring * JSValue)) (texts : list jsstring) :
  document w !! id_message = Some input ->
  document w !! id_response = Some output ->
  server h (chat_request h (message_of input)) = FetchResponse r ->
  payload r = BodyText text ->
  JSON_parse text = Some (JObject properties) ->
  own_property key_response properties = Some (JArray (List.map JString texts)) ->
  exists w' : World,
    sendMessage h w = Normal tt w'
    /\ document w' !! id_response
       = Some {| value := value output; innerText := join_comma texts |}.
Proof.
  intros Hin Hout Hreply Hbody Hparse Hfield.
  destruct (sendMessage_reply h w input output r text _
              Hin Hout Hreply Hbody Hparse) as (w' & Hrun & Hdoc).
  exists w'. split; [exact Hrun|]. rewrite Hdoc.
  cbn [response_field]. rewrite Hfield.
  change (default JUndefined (Some ?v)) with v.
  unfold to_innerText. rewrite ToString_strings. reflexivity.
Qed.

Lemma sendMessage_strings_response_witness :
  exists w' : World,
    sendMessage (host_answering
                   (reply 200 ([123; 34] ++ key_response
                               ++ [34; 58; 91; 34; 97; 34; 44; 34; 98; 34; 93; 125])))
                (chat_page (Some [104; 105]) []) = Normal tt w'
    /\ document w' !! id_response
       = Some {| value := None; innerText := join_comma [[97]; [98]] |}.
Proof.
  apply (sendMessage_strings_response
           (host_answering
              (reply 200 ([123; 34] ++ key_response
                          ++ [34; 58; 91; 34; 97; 34; 44; 34; 98; 34; 93; 125])))
           (chat_page (Some [104; 105]) [])
           {| value := Some [104; 105]; innerText := [] |}
           {| value := None; innerText := [] |}
           {| status := 200;
              payload := BodyText ([123; 34] ++ key_response
                                   ++ [34; 58; 91; 34; 97; 34; 44; 34; 98; 34; 93; 125]) |}
           ([123; 34] ++ key_response
            ++ [34; 58; 91; 34; 97; 34; 44; 34; 98; 34; 93; 125])
           [(key_response, JArray [JString [97]; JString [98]])]
           [[97]; [98]]).
  - apply chat_page_message.
  - apply chat_page_response.
  - reflexivity.
  - reflexivity.
  - reflexivity.
  - reflexivity.
Defined.

(** ** Pages that lack what the function expects *)

(** X1.  Input element present, output element missing: the fetch call is
    made all the same, and once the promises settle both assignments throw,
    the second one in the catch block, so sendMessage ends in an uncaught
    TypeError with the page as it was. *)
Theorem sendMessage_without_output
    (h : Host) (w : World) (input : Element) :
  document w !! id_message = Some input ->
  document w !! id_response = None ->
  settles (server h (chat_request h (message_of input))) = true ->
  exists w' : World,
    sendMessage h w = Thrown TypeError w'
    /\ document w' = document w
    /\ requests w' = requests w ++ [chat_request h (message_of input)].
Proof.
  intros Hin Hout Hsettles.
  rewrite (sendMessage_no_output h w input Hin Hout). cbv zeta.
  rewrite Hsettles. eexists. repeat split.
Qed.

Lemma sendMessage_without_output_witness :
  exists w' : World,
    sendMessage (host_answering (reply 200 hello_reply))
                (input_only_page [104; 105])
    = Thrown TypeError w'
    /\ document w' = document (input_only_page [104; 105])
    /\ requests w'
       = requests (input_only_page [104; 105])
         ++ [chat_request (host_answering (reply 200 hello_reply))
               (message_of {| value := Some [104; 105]; innerText := [] |})].
Proof.
  apply (sendMessage_without_output
           (host_answering (reply 200 hello_reply))
           (input_only_page [104; 105])
           {| value := Some [104; 105]; innerText := [] |}).
  - apply lookup_singleton_eq.
  - apply lookup_singleton_ne. discriminate.
  - reflexivity.
Defined.

(** X2.  An input element without a value property: message is undefined,
    JSON.stringify leaves the member out, and the one fetch call carries the
    text of the empty object. *)
Theorem sendMessage_posts_empty_object
    (h : Host) (w : World) (input : Element) :
  document w !! id_message = Some input ->
  value input = None ->
  requests (world_of (sendMessage h w))
  = requests w ++ [{| url := api_chat;
                      method := POST;
                      headers := [(Content_Type, application_json)];
                      body := Some [123; 125] |}]
  /\ JSON_parse [123; 125] = Some (JObject []).
Proof.
  intros Hin Hval. split; [|reflexivity].
  rewrite (requests_sendMessage h w input Hin).
  unfold chat_request, message_of. rewrite Hval. reflexivity.
Qed.

Lemma sendMessage_posts_empty_object_witness :
  requests (world_of (sendMessage (host_answering FetchRejected)
                                  (chat_page None [])))
  = [{| url := api_chat;
        method := POST;
        headers := [(Content_Type, application_json)];
        body := Some [123; 125] |}]
  /\ JSON_parse [123; 125] = Some (JObject []).
Proof.
  apply (sendMessage_posts_empty_object
           (host_answering FetchRejected) (chat_page None [])
           {| value := None; innerText := [] |}).
  - apply chat_page_message.
  - reflexivity.
Defined.

(** ** Two calls *)

Lemma document_sendMessage_other (h : Host) (w : World) (id : jsstring) :
  id <> id_response ->
  document (world_of (sendMessage h w)) !! id = document w !! id.
Proof.
  intros Hne. destruct (document w !! id_message) as [input|] eqn:Hin.
  - destruct (document w !! id_response) as [output|] eqn:Hout.
    + rewrite (sendMessage_present h w input output Hin Hout). cbv zeta.
      destruct (settles _); cbn [world_of]; [|reflexivity].
      rewrite document_show_ne by exact Hne. reflexivity.
    + rewrite (sendMessage_no_output h w input Hin Hout). cbv zeta.
      destruct (settles _); reflexivity.
  - rewrite (sendMessage_no_input h w Hin). reflexivity.
Qed.

(** X8.  Nothing is remembered between calls: a second call on the page the
    first one left makes the same fetch call again, so the two calls leave
    two equal requests, one after the other. *)
Theorem sendMessage_twice_requests
    (h : Host) (w : World) (input : Element) :
  document w !! id_message = Some input ->
  requests (world_of (sendMessage h (world_of (sendMessage h w))))
  = requests w ++ [chat_request h (message_of input);
                   chat_request h (message_of input)].
Proof.
  intros Hin.
  assert (Hin' : document (world_of (sendMessage h w)) !! id_message = Some input).
  { rewrite document_sendMessage_other by discriminate. exact Hin. }
  rewrite (requests_sendMessage h _ input Hin').
  rewrite (requests_sendMessage h w input Hin).
  rewrite <- app_assoc. reflexivity.
Qed.

Lemma sendMessage_twice_requests_witness :
  requests (world_of (sendMessage (host_answering (reply 200 hello_reply))
              (world_of (sendMessage (host_answering (reply 200 hello_reply))
                                     (chat_page (Some [104; 105]) [])))))
  = [chat_request (host_answering (reply 200 hello_reply)) (JString [104; 105]);
     chat_request (host_answering (reply 200 hello_reply)) (JString [104; 105])].
Proof.
  apply (sendMessage_twice_requests
           (host_answering (reply 200 hello_reply))
           (chat_page (Some [104; 105]) [])
           {| value := Some [104; 105]; innerText := [] |}).
  apply chat_page_message.
Defined.

(** ** The request body on the wire *)








